(** * Photo-pion production (CRPropa3, [src/module/PhotoPionProduction.cpp])

    A shallow embedding of the module: the rate-table loader
    [init(std::string)], the nucleus modification model, the stochastic step
    integrator [process], the event translator [performInteraction] and the
    continuous estimator [lossLength].

    C++ [double] is IEEE-754 binary64 and is embedded as Rocq's primitive
    [float], so every arithmetic expression below rounds exactly as the
    compiled code does.  C++ [int] is embedded as [Z]; signed overflow is
    undefined in C++ and the quantities involved (mass and charge numbers,
    particle codes) are far from the 32-bit bounds, so no wrap-around is
    written out. *)

From Stdlib Require Import ZArith List String Bool Lia.
From Stdlib Require Import Floats Uint63 DecimalString.
Import ListNotations.

Set Warnings "-inexact-float".
Open Scope Z_scope.

(** ** Doubles *)

(** Conversion [int -> double]; exact for every 32-bit value. *)
Definition double_of_int (n : Z) : float :=
  if n <? 0 then PrimFloat.opp (PrimFloat.of_uint63 (Uint63.of_Z (- n)))
  else PrimFloat.of_uint63 (Uint63.of_Z n).

(** [std::numeric_limits<double>::max()]. *)
Definition DBL_MAX : float := 0x1.fffffffffffffp+1023%float.

(** [a > b] on doubles, which is [b < a]. *)
Definition fgt (a b : float) : bool := PrimFloat.ltb b a.

(** [a != b] on doubles. *)
Definition fne (a b : float) : bool := negb (PrimFloat.eqb a b).

(** [std::min(a, b)], which is [(b < a) ? b : a]. *)
Definition std_min (a b : float) : float := if PrimFloat.ltb b a then b else a.

(** [kiss::str] on an [int]. *)
Definition kiss_str (n : Z) : string := NilZero.string_of_int (Z.to_int n).

(** ** Outcomes of a call

    A member function either returns, or throws [std::runtime_error] (the
    object is left as it was when the exception was raised), or runs into
    undefined behaviour ([front()] of an empty vector, a read of the
    uninitialised local [channel]).  [Timeout] is the model's own: the
    do-while loop of [process] is run for a bounded number of iterations. *)
Inductive outcome (S : Type) : Type :=
| Normal (s : S)
| Throws (msg : string) (s : S)
| Undefined
| Timeout.
Arguments Normal {S} s.
Arguments Throws {S} msg s.
Arguments Undefined {S}.
Arguments Timeout {S}.

(** ** External collaborators

    What the translation unit uses but does not define. *)

(** [<cmath>]. *)
Class Libm : Type := {
  pow : float -> float -> float;
  log : float -> float
}.

(** [crpropa/Units.h]. *)
Class Units : Type := {
  GeV : float;
  Mpc : float
}.

(** [crpropa/ParticleID.h]. *)
Class ParticleID : Type := {
  isNucleus : Z -> bool;
  massNumber : Z -> Z;
  chargeNumber : Z -> Z;
  nucleusId : Z -> Z -> Z
}.

(** Photon backgrounds of [crpropa/PhotonBackground.h]; [PhotonField_other]
    stands for an enumeration value outside the named ones. *)
Inductive PhotonField : Type :=
| CMB
| IRB
| IRB_Kneiske04
| IRB_Kneiske10
| IRB_Stecker05
| IRB_Franceschini08
| IRB_withRedshift_Kneiske04
| PhotonField_other (n : Z).

Definition PhotonField_is_CMB (f : PhotonField) : bool :=
  match f with CMB => true | _ => false end.

(** [crpropa/Common.h] and [crpropa/PhotonBackground.h]. *)
Class Common : Type := {
  getDataPath : string -> string;
  interpolate : float -> list float -> list float -> float;
  interpolate2d : float -> float -> list float -> list float -> list float -> float;
  photonFieldScaling : PhotonField -> float -> float
}.

(** One outgoing particle of the event generator: its type code
    [particleList[i]] and its energy component [momentaList[3][i]]. *)
Definition particle : Type := (Z * float)%type.

(** The random source and the event generator, both stateful.
    [sophiaevent nature Ein z background maxRedshift] yields the
    [nParticles] outgoing particles in order. *)
Class Runtime : Type := {
  World : Type;
  rand : World -> float * World;
  sophiaevent : Z -> float -> float -> Z -> float -> World -> list particle * World
}.

(** ** The module object *)

Record PhotoPionProduction : Type := mkPPP {
  description : string;
  photonField : PhotonField;
  havePhotons : bool;
  haveNeutrinos : bool;
  haveAntiNucleons : bool;
  doRedshiftDependent : bool;
  limit : float;
  tabLorentz : list float;
  tabRedshifts : list float;
  tabProtonRate : list float;
  tabNeutronRate : list float
}.

Definition setHavePhotons (m : PhotoPionProduction) (b : bool) : PhotoPionProduction :=
  mkPPP (description m) (photonField m) b (haveNeutrinos m) (haveAntiNucleons m)
        (doRedshiftDependent m) (limit m)
        (tabLorentz m) (tabRedshifts m) (tabProtonRate m) (tabNeutronRate m).

Definition setHaveNeutrinos (m : PhotoPionProduction) (b : bool) : PhotoPionProduction :=
  mkPPP (description m) (photonField m) (havePhotons m) b (haveAntiNucleons m)
        (doRedshiftDependent m) (limit m)
        (tabLorentz m) (tabRedshifts m) (tabProtonRate m) (tabNeutronRate m).

Definition setHaveAntiNucleons (m : PhotoPionProduction) (b : bool) : PhotoPionProduction :=
  mkPPP (description m) (photonField m) (havePhotons m) (haveNeutrinos m) b
        (doRedshiftDependent m) (limit m)
        (tabLorentz m) (tabRedshifts m) (tabProtonRate m) (tabNeutronRate m).

Definition setLimit (m : PhotoPionProduction) (l : float) : PhotoPionProduction :=
  mkPPP (description m) (photonField m) (havePhotons m) (haveNeutrinos m)
        (haveAntiNucleons m) (doRedshiftDependent m) l
        (tabLorentz m) (tabRedshifts m) (tabProtonRate m) (tabNeutronRate m).

Definition setDescription (m : PhotoPionProduction) (d : string) : PhotoPionProduction :=
  mkPPP d (photonField m) (havePhotons m) (haveNeutrinos m)
        (haveAntiNucleons m) (doRedshiftDependent m) (limit m)
        (tabLorentz m) (tabRedshifts m) (tabProtonRate m) (tabNeutronRate m).

Definition setDoRedshiftDependent (m : PhotoPionProduction) (b : bool) : PhotoPionProduction :=
  mkPPP (description m) (photonField m) (havePhotons m) (haveNeutrinos m)
        (haveAntiNucleons m) b (limit m)
        (tabLorentz m) (tabRedshifts m) (tabProtonRate m) (tabNeutronRate m).

(** The four tables of the object, replaced together. *)
Definition setTables (m : PhotoPionProduction) (tl tz tp tn : list float)
  : PhotoPionProduction :=
  mkPPP (description m) (photonField m) (havePhotons m) (haveNeutrinos m)
        (haveAntiNucleons m) (doRedshiftDependent m) (limit m) tl tz tp tn.

(** ** Nucleus modification model *)

Section NucleiModification.
Context {libm : Libm}.

Definition nucleiModification (A X : Z) : float :=
  if A =? 1 then 1%float
  else if A <=? 8 then (0.85 * pow (double_of_int X) (2 / 3))%float
  else (0.85 * double_of_int X)%float.

End NucleiModification.

(** ** The candidate *)

(** Modelled from the spec: the particle state of [crpropa/ParticleState.h]
    (not part of this translation unit): the current particle identity and
    its energy. *)
Record ParticleState : Type := mkParticleState {
  getId : Z;
  getEnergy : float
}.

(** Modelled from the spec: the candidate of [crpropa/Candidate.h] (not part
    of this translation unit): current particle, redshift, the step being
    processed, the cap on the next step, and the append-only ordered
    sequence of secondaries [(id, energy)]. *)
Record Candidate : Type := mkCandidate {
  current : ParticleState;
  getRedshift : float;
  getCurrentStep : float;
  getNextStep : float;
  secondaries : list (Z * float)
}.

(** Modelled from the spec: [candidate->current.setEnergy]. *)
Definition setEnergy (c : Candidate) (E : float) : Candidate :=
  mkCandidate (mkParticleState (getId (current c)) E)
              (getRedshift c) (getCurrentStep c) (getNextStep c) (secondaries c).

(** Modelled from the spec: [candidate->current.setId]. *)
Definition setId (c : Candidate) (id : Z) : Candidate :=
  mkCandidate (mkParticleState id (getEnergy (current c)))
              (getRedshift c) (getCurrentStep c) (getNextStep c) (secondaries c).

(** Modelled from the spec: [candidate->addSecondary(id, energy)] appends
    to the sequence of secondaries. *)
Definition addSecondary (c : Candidate) (id : Z) (E : float) : Candidate :=
  mkCandidate (current c) (getRedshift c) (getCurrentStep c) (getNextStep c)
              (secondaries c ++ [(id, E)]).

(** Modelled from the spec: [candidate->limitNextStep(step)] caps the next
    permitted step, [nextStep = std::min(nextStep, step)]. *)
Definition limitNextStep (c : Candidate) (step : float) : Candidate :=
  mkCandidate (current c) (getRedshift c) (getCurrentStep c)
              (std_min (getNextStep c) step) (secondaries c).

(** [candidate->current.getLorentzFactor()] depends on the particle's rest
    mass, a table of the surrounding framework. *)
Class Kinematics : Type := {
  lorentzFactor : ParticleState -> float
}.

Definition getLorentzFactor {kin : Kinematics} (c : Candidate) : float :=
  lorentzFactor (current c).

(** ** Interaction event translator *)

Section PerformInteraction.
Context {units : Units} {pid : ParticleID} {rt : Runtime}.

Definition unexpected_particle (pType : Z) : string :=
  ("PhotoPionProduction: unexpected particle " ++ kiss_str pType)%string.

(** The body of the loop over the out-going particles, for one particle.
    [A], [Z], [E] and [EpA] are the locals read from the candidate before
    the generator is called. *)
Definition translate_particle (m : PhotoPionProduction)
    (sign A Z channel : Z) (E EpA : float) (p : particle) (c : Candidate)
  : outcome Candidate :=
  let Eout := (snd p * GeV)%float in
  let pType := fst p in
  if (pType =? 13) || (pType =? 14) then
    if A =? 1 then
      Normal (setId (setEnergy c Eout) (sign * nucleusId 1 (14 - pType)))
    else
      Normal (addSecondary
                (setId (setEnergy c (E - EpA)%float)
                       (sign * nucleusId (A - 1) (Z - channel)))
                (sign * nucleusId 1 (14 - pType)) Eout)
  else if (pType =? -13) || (pType =? -14) then
    Normal (if haveAntiNucleons m
            then addSecondary c (- sign * nucleusId 1 (14 + pType)) Eout else c)
  else if pType =? 1 then
    Normal (if havePhotons m then addSecondary c 22 Eout else c)
  else if pType =? 2 then
    Normal (if havePhotons m then addSecondary c (sign * -11) Eout else c)
  else if pType =? 3 then
    Normal (if havePhotons m then addSecondary c (sign * 11) Eout else c)
  else if pType =? 15 then
    Normal (if haveNeutrinos m then addSecondary c (sign * 12) Eout else c)
  else if pType =? 16 then
    Normal (if haveNeutrinos m then addSecondary c (sign * -12) Eout else c)
  else if pType =? 17 then
    Normal (if haveNeutrinos m then addSecondary c (sign * 14) Eout else c)
  else if pType =? 18 then
    Normal (if haveNeutrinos m then addSecondary c (sign * -14) Eout else c)
  else Throws (unexpected_particle pType) c.

(** [for (int i = 0; i < nParticles; i++)]. *)
Fixpoint translate_particles (m : PhotoPionProduction)
    (sign A Z channel : Z) (E EpA : float) (ps : list particle) (c : Candidate)
  : outcome Candidate :=
  match ps with
  | [] => Normal c
  | p :: ps' =>
      match translate_particle m sign A Z channel E EpA p c with
      | Normal c' => translate_particles m sign A Z channel E EpA ps' c'
      | stop => stop
      end
  end.

Definition performInteraction (m : PhotoPionProduction) (c : Candidate)
    (channel : Z) (w : World) : outcome (Candidate * World) :=
  let id := getId (current c) in
  let A := massNumber id in
  let Z := chargeNumber id in
  let E := getEnergy (current c) in
  let EpA := (E / double_of_int A)%float in
  let z := getRedshift c in
  let sign := if id >? 0 then 1 else -1 in
  let nature := 1 - channel in
  let Ein := (EpA / GeV)%float in
  let maxRedshift := 100%float in
  let background := if PhotonField_is_CMB (photonField m) then 1 else 2 in
  let (particles, w') := sophiaevent nature Ein z background maxRedshift w in
  match translate_particles m sign A Z channel E EpA particles c with
  | Normal c' => Normal (c', w')
  | Throws msg c' => Throws msg (c', w')
  | Undefined => Undefined
  | Timeout => Timeout
  end.

End PerformInteraction.

(** ** Rate-table files

    The text of a table file, line by line.  A line that begins with ['#']
    is a comment; any other line is its whitespace-separated tokens, each a
    number that [operator>>] can extract into a [double], or something
    else. *)
Inductive token : Type :=
| Num (x : float)
| Junk.

Inductive line : Type :=
| CommentLine
| TextLine (ts : list token).

(** The unread part of the stream: the rest of the line the read position
    is in, then the lines after it. *)
Definition stream : Type := list line.

(** [infile >> x] for a [double]: leading whitespace, newlines included, is
    skipped; the extraction fails at the end of the file and on anything
    that is not a number (the ['#'] of a comment line as well). *)
Fixpoint extract_double (s : stream) : option (float * stream) :=
  match s with
  | [] => None
  | CommentLine :: _ => None
  | TextLine [] :: s' => extract_double s'
  | TextLine (Num x :: ts) :: s' => Some (x, TextLine ts :: s')
  | TextLine (Junk :: _) :: _ => None
  end.

(** [infile >> a >> b >> c]. *)
Definition extract3 (s : stream) : option (float * float * float * stream) :=
  match extract_double s with
  | None => None
  | Some (a, s1) =>
      match extract_double s1 with
      | None => None
      | Some (b, s2) =>
          match extract_double s2 with
          | None => None
          | Some (c, s3) => Some (a, b, c, s3)
          end
      end
  end.

(** [infile.ignore(max, '\n')]: the rest of the current line is dropped. *)
Definition ignore_line (s : stream) : stream := tl s.

(** The locals and the tables written by the reading loop.  In the
    redshift-independent mode [z] is never read from the file and [zOld] is
    never compared, so [ld_zOld] is then left as it is. *)
Record loader : Type := mkLoader {
  ld_zOld : float;
  ld_aOld : float;
  ld_doReadLorentz : bool;
  ld_tabLorentz : list float;
  ld_tabRedshifts : list float;
  ld_tabProtonRate : list float;
  ld_tabNeutronRate : list float
}.

Section Init.
Context {libm : Libm} {units : Units} {cmn : Common}.

(** The body of [if (infile)]: one data row [z a b c] is stored
    ([z = None] in the redshift-independent mode). *)
Definition store_row (redshiftDependent : bool) (z : option float)
    (a b c : float) (st : loader) : loader :=
  let tabRedshifts :=
    match z with
    | Some zv => if redshiftDependent && fne zv (ld_zOld st)
                 then ld_tabRedshifts st ++ [zv] else ld_tabRedshifts st
    | None => ld_tabRedshifts st
    end in
  let doReadLorentz :=
    if PrimFloat.ltb a (ld_aOld st) then false else ld_doReadLorentz st in
  let tabLorentz :=
    if doReadLorentz then ld_tabLorentz st ++ [pow (double_of_int 10) a]
    else ld_tabLorentz st in
  mkLoader (match z with Some zv => zv | None => ld_zOld st end) a
           doReadLorentz tabLorentz tabRedshifts
           (ld_tabProtonRate st ++ [(b / Mpc)%float])
           (ld_tabNeutronRate st ++ [(c / Mpc)%float]).

(** [while (infile.good()) { ... }].  Every iteration that does not leave
    the loop drops at least one line, so [fuel] = number of lines + 1 is
    never used up (lemma [read_loop_fuel] below). *)
Fixpoint read_loop (fuel : nat) (redshiftDependent : bool) (s : stream)
    (st : loader) : loader :=
  match fuel with
  | O => st
  | S fuel' =>
      match s with
      | [] => st
      | CommentLine :: s' => read_loop fuel' redshiftDependent s' st
      | TextLine _ :: _ =>
          if redshiftDependent then
            match extract_double s with
            | None => st
            | Some (z, s1) =>
                match extract3 s1 with
                | None => st
                | Some (a, b, c, s2) =>
                    read_loop fuel' redshiftDependent (ignore_line s2)
                              (store_row redshiftDependent (Some z) a b c st)
                end
            end
          else
            match extract3 s with
            | None => st
            | Some (a, b, c, s2) =>
                read_loop fuel' redshiftDependent (ignore_line s2)
                          (store_row redshiftDependent None a b c st)
            end
      end
  end.

Definition read_table (redshiftDependent : bool) (s : stream) : loader :=
  read_loop (S (List.length s)) redshiftDependent s
            (mkLoader (-1)%float (-1)%float true [] [] [] []).

(** The file system seen by [std::ifstream]: the text of the file of a
    given name, [None] when it cannot be opened. *)
Definition filesystem : Type := string -> option stream.

Definition could_not_open (filename : string) : string :=
  ("PhotoPionProduction: could not open file " ++ filename)%string.

(** [PhotoPionProduction::init(std::string filename)]. *)
Definition init_file (fs : filesystem) (m : PhotoPionProduction)
    (filename : string) : outcome PhotoPionProduction :=
  match fs filename with
  | None => Throws (could_not_open filename) m
  | Some s =>
      let cleared := setTables m [] [] [] [] in
      let st := read_table (doRedshiftDependent cleared) s in
      Normal (setTables cleared (ld_tabLorentz st) (ld_tabRedshifts st)
                        (ld_tabProtonRate st) (ld_tabNeutronRate st))
  end.

(** [PhotoPionProduction::init()]. *)
Definition init (fs : filesystem) (m : PhotoPionProduction)
  : outcome PhotoPionProduction :=
  match photonField m with
  | CMB =>
      init_file fs (setDescription m "PhotoPionProduction: CMB")
                (getDataPath "ppp_CMB.txt")
  | IRB | IRB_Kneiske04 =>
      init_file fs (setDescription m "PhotoPionProduction: IRB Kneiske '04")
                (getDataPath "ppp_IRB_Kneiske04.txt")
  | IRB_Kneiske10 =>
      init_file fs
        (setDescription m "PhotoPionProduction: IRB Kneiske '10 (lower limit)")
        (getDataPath "ppp_IRB_Kneiske10.txt")
  | IRB_Stecker05 =>
      init_file fs (setDescription m "PhotoPionProduction: IRB Stecker '05")
                (getDataPath "ppp_IRB_Stecker05.txt")
  | IRB_Franceschini08 =>
      init_file fs (setDescription m "PhotoPionProduction: IRB Franceschini '08")
                (getDataPath "ppp_IRB_Franceschini08.txt")
  | IRB_withRedshift_Kneiske04 =>
      init_file fs
        (setDescription (setDoRedshiftDependent m true)
                        "PhotoPionProduction: IRB with redshift Kneiske '04")
        (getDataPath "ppp_IRBz_Kneiske04.txt")
  | PhotonField_other _ =>
      Throws "PhotoPionProduction: unknown photon background" m
  end.

(** [PhotoPionProduction::setPhotonField(PhotonField photonField)]. *)
Definition setPhotonField (fs : filesystem) (m : PhotoPionProduction)
    (field : PhotonField) : outcome PhotoPionProduction :=
  init fs (mkPPP (description m) field (havePhotons m) (haveNeutrinos m)
                 (haveAntiNucleons m) (doRedshiftDependent m) (limit m)
                 (tabLorentz m) (tabRedshifts m) (tabProtonRate m)
                 (tabNeutronRate m)).

(** The constructor; when [init] throws, no object comes into being. *)
Definition construct (fs : filesystem) (field : PhotonField)
    (photons neutrinos antiNucleons : bool) (l : float)
  : outcome PhotoPionProduction :=
  init fs (mkPPP "" field photons neutrinos antiNucleons false l [] [] [] []).

End Init.

(** ** Stochastic step integrator *)

(** The locals [randDistance], [channel] and [totalRate] of one iteration;
    [channel] is declared without an initial value. *)
Record sampling : Type := mkSampling {
  randDistance : float;
  channel : option Z;
  totalRate : float
}.

Section Process.
Context {libm : Libm} {units : Units} {pid : ParticleID} {cmn : Common}
        {rt : Runtime} {kin : Kinematics}.

(** [tabLorentz.front()] and [tabLorentz.back()]; both are undefined on an
    empty vector. *)
Definition front (v : list float) : option float :=
  match v with [] => None | x :: _ => Some x end.

Definition back (v : list float) : option float :=
  match v with [] => None | x :: _ => Some (last v x) end.

(** [gamma < tabLorentz.front() or (gamma > tabLorentz.back())]. *)
Definition outOfRange (m : PhotoPionProduction) (gamma : float) : option bool :=
  match front (tabLorentz m), back (tabLorentz m) with
  | Some lo, Some hi => Some (PrimFloat.ltb gamma lo || fgt gamma hi)
  | _, _ => None
  end.

(** [double gamma = (1 + z) * candidate->current.getLorentzFactor()]. *)
Definition boostedGamma (c : Candidate) : float :=
  ((1 + getRedshift c) * getLorentzFactor c)%float.

(** [double scaling = pow(1 + z, 2) * photonFieldScaling(photonField, z)]. *)
Definition scaling (m : PhotoPionProduction) (z : float) : float :=
  (pow (1 + z) (double_of_int 2) * photonFieldScaling (photonField m) z)%float.

(** The rate of one channel, as both branches of [process] compute it:
    the conditional expression on [doRedshiftDependent], then
    [rate *= nucleiModification(A, X)]. *)
Definition channelRate (m : PhotoPionProduction) (z gamma : float)
    (tab : list float) (A X : Z) : float :=
  ((if negb (doRedshiftDependent m)
    then scaling m z * interpolate gamma (tabLorentz m) tab
    else interpolate2d z gamma (tabRedshifts m) (tabLorentz m) tab)
   * nucleiModification A X)%float.

(** "find interaction with minimum random distance": the two [if] blocks
    on [Z > 0] and [N > 0]. *)
Definition sample_channels (m : PhotoPionProduction) (c : Candidate) (w : World)
  : sampling * World :=
  let id := getId (current c) in
  let z := getRedshift c in
  let gamma := boostedGamma c in
  let A := massNumber id in
  let Z := chargeNumber id in
  let N := A - Z in
  let s0 := mkSampling DBL_MAX None 0%float in
  let '(s1, w1) :=
    if Z >? 0 then
      let rate := channelRate m z gamma (tabProtonRate m) A Z in
      let (u, w') := rand w in
      (mkSampling (- log u / rate)%float (Some 1) (totalRate s0 + rate)%float, w')
    else (s0, w) in
  if N >? 0 then
    let rate := channelRate m z gamma (tabNeutronRate m) A N in
    let (u, w') := rand w1 in
    let d := (- log u / rate)%float in
    if PrimFloat.ltb d (randDistance s1)
    then (mkSampling d (Some 0) (totalRate s1 + rate)%float, w')
    else (mkSampling (randDistance s1) (channel s1) (totalRate s1 + rate)%float, w')
  else (s1, w1).

(** The do-while loop of [process], run for at most [fuel] iterations. *)
Fixpoint process_loop (fuel : nat) (m : PhotoPionProduction) (step : float)
    (c : Candidate) (w : World) : outcome (Candidate * World) :=
  match fuel with
  | O => Timeout
  | S fuel' =>
      if negb (isNucleus (getId (current c))) then Normal (c, w)
      else
        match outOfRange m (boostedGamma c) with
        | None => Undefined
        | Some true => Normal (c, w)
        | Some false =>
            let (s, w1) := sample_channels m c w in
            if PrimFloat.ltb step (randDistance s) then
              Normal (limitNextStep c (limit m / totalRate s)%float, w1)
            else
              match channel s with
              | None => Undefined
              | Some ch =>
                  match performInteraction m c ch w1 with
                  | Normal (c', w2) =>
                      let step' := (step - randDistance s)%float in
                      if fgt step' 0%float
                      then process_loop fuel' m step' c' w2
                      else Normal (c', w2)
                  | stop => stop
                  end
              end
        end
  end.

(** [PhotoPionProduction::process(Candidate *candidate)], with at most
    [fuel] iterations of its loop. *)
Definition process (fuel : nat) (m : PhotoPionProduction) (c : Candidate)
    (w : World) : outcome (Candidate * World) :=
  process_loop fuel m (getCurrentStep c) c w.

(** ** Continuous loss-length estimator *)

Definition relativeEnergyLoss (A : Z) : float :=
  if A =? 1 then (1 - 938 / 1232)%float else (1 / double_of_int A)%float.

(** [PhotoPionProduction::lossLength(int id, double gamma, double z)]. *)
Definition lossLength (m : PhotoPionProduction) (id : Z) (gamma z : float)
  : outcome float :=
  let A := massNumber id in
  let Z := chargeNumber id in
  let N := A - Z in
  let gamma := (gamma * (1 + z))%float in
  match outOfRange m gamma with
  | None => Undefined
  | Some true => Normal DBL_MAX
  | Some false =>
      let lossRate := 0%float in
      let lossRate :=
        if Z >? 0 then
          (lossRate + interpolate gamma (tabLorentz m) (tabProtonRate m)
                      * nucleiModification A Z)%float
        else lossRate in
      let lossRate :=
        if N >? 0 then
          (lossRate + interpolate gamma (tabLorentz m) (tabProtonRate m)
                      * nucleiModification A N)%float
        else lossRate in
      let lossRate := (lossRate * relativeEnergyLoss A)%float in
      let lossRate :=
        (lossRate * (pow (1 + z) (double_of_int 3)
                     * photonFieldScaling (photonField m) z))%float in
      Normal (1 / lossRate)%float
  end.

End Process.

(** ** Sample collaborators

    Instances of the external interfaces on which the model runs on concrete
    inputs.  The theorems below hold for every instance; these are used for
    the worked examples only. *)
Module Sample.

(** [x] to the power [n] by repeated multiplication. *)
Fixpoint pow_nat (x : float) (n : nat) : float :=
  match n with
  | O => 1%float
  | S n' => (x * pow_nat x n')%float
  end.

(** The cube root of a positive number by Newton's iteration. *)
Fixpoint cbrt_newton (n : nat) (x t : float) : float :=
  match n with
  | O => t
  | S n' => cbrt_newton n' x ((2 * t + x / (t * t)) / 3)%float
  end.

(** [pow] as far as the module calls it: the exponent [2./3.] of the
    nucleus modification model and small non-negative integers. *)
Definition pow_small (x y : float) : float :=
  if PrimFloat.eqb y (2 / 3) then
    let r := cbrt_newton 64 x x in (r * r)%float
  else
    match find (fun n => PrimFloat.eqb y (double_of_int (Z.of_nat n))) (seq 0 32) with
    | Some n => pow_nat x n
    | None => nan
    end.

(** The natural logarithm by the series
    [2 * (t + t^3/3 + t^5/5 + ...)], [t = (u - 1) / (u + 1)]. *)
Fixpoint log_series (terms : nat) (k : Z) (t2 tk acc : float) : float :=
  match terms with
  | O => acc
  | S terms' =>
      log_series terms' (k + 2) t2 (tk * t2)%float
                 (acc + tk / double_of_int k)%float
  end.

Definition log_approx (u : float) : float :=
  let t := ((u - 1) / (u + 1))%float in
  (2 * log_series 40 1 (t * t)%float t 0%float)%float.

#[export] Instance libm : Libm := {| pow := pow_small; log := log_approx |}.

(** SI values: [GeV] in joule, [Mpc] in metre. *)
#[export] Instance units : Units :=
  {| GeV := 1.60217657e-10%float; Mpc := 3.0856775807e22%float |}.

(** The numbering scheme of nuclei, [10LZZZAAAI]. *)
#[export] Instance pid : ParticleID := {|
  isNucleus := fun id => 1000000000 <=? Z.abs id;
  massNumber := fun id => (Z.abs id / 10) mod 1000;
  chargeNumber := fun id => (Z.abs id / 10000) mod 1000;
  nucleusId := fun a z => 1000000000 + z * 10000 + a * 10
|}.

(** Piecewise-linear interpolation on the grid [X] with values [Y]. *)
Fixpoint linear (x : float) (X Y : list float) : float :=
  match X, Y with
  | x0 :: ((x1 :: _) as X'), y0 :: ((y1 :: _) as Y') =>
      if PrimFloat.ltb x x1
      then (y0 + (x - x0) * (y1 - y0) / (x1 - x0))%float
      else linear x X' Y'
  | _, y0 :: _ => y0
  | _, [] => 0%float
  end.

#[export] Instance cmn : Common := {|
  getDataPath := fun f => ("share/crpropa/" ++ f)%string;
  interpolate := linear;
  interpolate2d := fun _ x _ X Y => linear x X Y;
  photonFieldScaling := fun _ _ => 1%float
|}.

(** The world as two tapes: the uniform variates still to be drawn and the
    generator's events still to be produced. *)
Record tapes : Type := mkTapes {
  variates : list float;
  events : list (list particle)
}.

#[export] Instance rt : Runtime := {|
  World := tapes;
  rand := fun w =>
    match variates w with
    | [] => (0.5%float, w)
    | u :: us => (u, mkTapes us (events w))
    end;
  sophiaevent := fun _ _ _ _ _ w =>
    match events w with
    | [] => ([], w)
    | e :: es => (e, mkTapes (variates w) es)
    end
|}.

(** Energy over rest energy, with the nucleon rest energy in joule. *)
#[export] Instance kin : Kinematics := {|
  lorentzFactor := fun p =>
    (getEnergy p / (double_of_int (massNumber (getId p)) * 1.5033e-10))%float
|}.

(** A module object for the CMB with a three-point table. *)
Definition cmb : PhotoPionProduction :=
  mkPPP "PhotoPionProduction: CMB" CMB true true true false 0.1%float
        [1e10; 1e11; 1e12]%float [] [1e-24; 2e-24; 4e-24]%float
        [1e-24; 3e-24; 5e-24]%float.

(** The same with a photon field so thin that every tabulated rate is
    zero. *)
Definition dark : PhotoPionProduction :=
  mkPPP "PhotoPionProduction: CMB" CMB true true true false 0.1%float
        [1e10; 1e11; 1e12]%float [] [0; 0; 0]%float [0; 0; 0]%float.

(** A nucleus of mass number [A], charge number [Q] and energy [E] at
    redshift 0, with a step of 1e22 m to process. *)
Definition nucleus (A Q : Z) (E : float) (secs : list (Z * float)) : Candidate :=
  mkCandidate (mkParticleState (nucleusId A Q) E) 0%float 1e22%float 1e30%float secs.

End Sample.

(** ** Vocabulary of the statements *)

(** [int sign = (id > 0) ? 1 : -1]. *)
Definition sign_of (id : Z) : Z := if id >? 0 then 1 else -1.

(** A candidate with further secondaries appended, everything else kept. *)
Definition addSecondaries (c : Candidate) (l : list (Z * float)) : Candidate :=
  mkCandidate (current c) (getRedshift c) (getCurrentStep c) (getNextStep c)
              (secondaries c ++ l).

Definition is_nucleon_code (pType : Z) : bool := (pType =? 13) || (pType =? 14).

(** The codes of the generator other than the two nucleon codes that the
    switch of [performInteraction] has a case for. *)
Definition is_other_code (pType : Z) : bool :=
  existsb (Z.eqb pType) [-13; -14; 1; 2; 3; 15; 16; 17; 18].

Section Vocabulary.
Context {units : Units} {pid : ParticleID} {rt : Runtime}.

(** The secondary recorded for an outgoing particle that is not a nucleon,
    under the three toggles of the module. *)
Definition recorded (m : PhotoPionProduction) (sign : Z) (p : particle)
  : list (Z * float) :=
  let Eout := (snd p * GeV)%float in
  let pType := fst p in
  if (pType =? -13) || (pType =? -14) then
    if haveAntiNucleons m then [(- sign * nucleusId 1 (14 + pType), Eout)] else []
  else if pType =? 1 then if havePhotons m then [(22, Eout)] else []
  else if pType =? 2 then if havePhotons m then [(sign * -11, Eout)] else []
  else if pType =? 3 then if havePhotons m then [(sign * 11, Eout)] else []
  else if pType =? 15 then if haveNeutrinos m then [(sign * 12, Eout)] else []
  else if pType =? 16 then if haveNeutrinos m then [(sign * -12, Eout)] else []
  else if pType =? 17 then if haveNeutrinos m then [(sign * 14, Eout)] else []
  else if pType =? 18 then if haveNeutrinos m then [(sign * -14, Eout)] else []
  else [].

(** The call of the event generator made by [performInteraction]. *)
Definition generated (m : PhotoPionProduction) (c : Candidate) (channel : Z)
    (w : World) : list particle * World :=
  sophiaevent (1 - channel)
    (getEnergy (current c) / double_of_int (massNumber (getId (current c))) / GeV)%float
    (getRedshift c)
    (if PhotonField_is_CMB (photonField m) then 1 else 2)
    100%float w.

End Vocabulary.

Section ProcessVocabulary.
Context {libm : Libm} {units : Units} {pid : ParticleID} {cmn : Common}
        {rt : Runtime} {kin : Kinematics}.

(** The rate of the proton channel of a candidate: [channelRate] on
    [tabProtonRate] with the Z protons of the nucleus. *)
Definition protonRate (m : PhotoPionProduction) (c : Candidate) : float :=
  let id := getId (current c) in
  channelRate m (getRedshift c) (boostedGamma c) (tabProtonRate m)
              (massNumber id) (chargeNumber id).

(** The rate of the neutron channel: [channelRate] on [tabNeutronRate] with
    the N = A - Z neutrons of the nucleus. *)
Definition neutronRate (m : PhotoPionProduction) (c : Candidate) : float :=
  let id := getId (current c) in
  channelRate m (getRedshift c) (boostedGamma c) (tabNeutronRate m)
              (massNumber id) (massNumber id - chargeNumber id).

Definition hasProtons (c : Candidate) : bool :=
  chargeNumber (getId (current c)) >? 0.

Definition hasNeutrons (c : Candidate) : bool :=
  massNumber (getId (current c)) - chargeNumber (getId (current c)) >? 0.

(** The sum of the rates of the available channels, in the order the code
    accumulates it. *)
Definition summedRate (m : PhotoPionProduction) (c : Candidate) : float :=
  let t := if hasProtons c then (0 + protonRate m c)%float else 0%float in
  if hasNeutrons c then (t + neutronRate m c)%float else t.

(** The world after one uniform variate per available channel was drawn. *)
Definition drawn (c : Candidate) (w : World) : World :=
  let w1 := if hasProtons c then snd (rand w) else w in
  if hasNeutrons c then snd (rand w1) else w1.

(** The smaller of the sampled distances [-log(u) / rate] of the available
    channels; [DBL_MAX] when there is none. *)
Definition minDistance (m : PhotoPionProduction) (c : Candidate) (w : World)
  : float :=
  let d := if hasProtons c then (- log (fst (rand w)) / protonRate m c)%float
           else DBL_MAX in
  let w1 := if hasProtons c then snd (rand w) else w in
  if hasNeutrons c then
    let dn := (- log (fst (rand w1)) / neutronRate m c)%float in
    if PrimFloat.ltb dn d then dn else d
  else d.

End ProcessVocabulary.

(** A data row of a table file as the format has it: the numbers
    [z log10(gamma) protonRate neutronRate] ([z] is not in the file of a
    redshift-independent field), then whatever else the line holds. *)
Record row : Type := mkRow {
  row_z : float;
  row_a : float;
  row_b : float;
  row_c : float;
  row_rest : list token
}.

(** A line of a well-formed table file: a comment or a data row. *)
Inductive entry : Type :=
| EComment
| ERow (r : row).

Definition render_entry (redshiftDependent : bool) (e : entry) : line :=
  match e with
  | EComment => CommentLine
  | ERow r =>
      TextLine ((if redshiftDependent then [Num (row_z r)] else [])
                ++ [Num (row_a r); Num (row_b r); Num (row_c r)] ++ row_rest r)
  end.

(** The text of the file with the given lines. *)
Definition render (redshiftDependent : bool) (es : list entry) : stream :=
  map (render_entry redshiftDependent) es.

(** The data rows of a file, in order. *)
Definition rows_of (es : list entry) : list row :=
  flat_map (fun e => match e with EComment => [] | ERow r => [r] end) es.

(** The first ascending run of a sequence, [prev] standing before its
    first element: it ends where an element is smaller than the one
    before. *)
Fixpoint ascending_run (prev : float) (l : list float) : list float :=
  match l with
  | [] => []
  | a :: l' => if PrimFloat.ltb a prev then [] else a :: ascending_run a l'
  end.

Section LoaderVocabulary.
Context {libm : Libm} {units : Units}.

(** What storing one data row of the file does to the loader. *)
Definition store (redshiftDependent : bool) (st : loader) (r : row) : loader :=
  store_row redshiftDependent
            (if redshiftDependent then Some (row_z r) else None)
            (row_a r) (row_b r) (row_c r) st.

End LoaderVocabulary.

(** ** Vocabulary of the further properties *)

(** A type code the switch of [performInteraction] has a case for. *)
Definition is_known_code (pType : Z) : bool :=
  is_nucleon_code pType || is_other_code pType.

(** [c'] is [c] with secondaries appended and possibly another current
    particle: redshift, processed step and the cap on the next step are
    those of [c], and the secondaries of [c] are a prefix of those of
    [c']. *)
Definition grown (c c' : Candidate) : Prop :=
  getRedshift c' = getRedshift c
  /\ getCurrentStep c' = getCurrentStep c
  /\ getNextStep c' = getNextStep c
  /\ exists l : list (Z * float), secondaries c' = secondaries c ++ l.

(** As [grown], but the cap on the next step may also have been lowered. *)
Definition advanced (c c' : Candidate) : Prop :=
  getRedshift c' = getRedshift c
  /\ getCurrentStep c' = getCurrentStep c
  /\ (getNextStep c' = getNextStep c
      \/ PrimFloat.ltb (getNextStep c') (getNextStep c) = true)
  /\ exists l : list (Z * float), secondaries c' = secondaries c ++ l.

Section EventVocabulary.
Context {units : Units} {pid : ParticleID} {rt : Runtime}.

(** The secondaries appended for one outgoing particle with a case in the
    switch, for a primary of mass number [A]: a nucleon is a secondary only
    when it leaves a nucleus. *)
Definition appended (m : PhotoPionProduction) (sign A : Z) (p : particle)
  : list (Z * float) :=
  if is_nucleon_code (fst p) then
    if A =? 1 then []
    else [(sign * nucleusId 1 (14 - fst p), (snd p * GeV)%float)]
  else recorded m sign p.

End EventVocabulary.

Section PrimaryVocabulary.
Context {units : Units} {pid : ParticleID}.

(** The current particle after the loop over an event: every nucleon code
    rewrites it, to the outgoing nucleon for a bare nucleon and to the
    daughter nucleus otherwise; nothing else touches it. *)
Fixpoint primary_after (sign A Z channel : BinNums.Z) (E EpA : float)
    (ps : list particle) (st : ParticleState) : ParticleState :=
  match ps with
  | [] => st
  | p :: ps' =>
      primary_after sign A Z channel E EpA ps'
        (if is_nucleon_code (fst p) then
           if A =? 1
           then mkParticleState (sign * nucleusId 1 (14 - fst p)) (snd p * GeV)%float
           else mkParticleState (sign * nucleusId (A - 1) (Z - channel)) (E - EpA)%float
         else st)
  end.

End PrimaryVocabulary.

(** The module with the recording of photons, neutrinos and antinucleons
    switched off. *)
Definition recordNothing (m : PhotoPionProduction) : PhotoPionProduction :=
  setHaveAntiNucleons (setHaveNeutrinos (setHavePhotons m false) false) false.

(** A secondary with the particle replaced by its antiparticle. *)
Definition conjugate (s : Z * float) : Z * float := (- fst s, snd s).

Section WinnerVocabulary.
Context {libm : Libm} {units : Units} {pid : ParticleID} {cmn : Common}
        {rt : Runtime} {kin : Kinematics}.

(** The channel left in the local [channel] after the two sampling blocks:
    1 once the proton block has run, 0 when the neutron block has found a
    strictly smaller distance, nothing when neither assignment was made. *)
Definition winner (m : PhotoPionProduction) (c : Candidate) (w : World)
  : option Z :=
  let d := if hasProtons c then (- log (fst (rand w)) / protonRate m c)%float
           else DBL_MAX in
  let ch := if hasProtons c then Some 1 else None in
  let w1 := if hasProtons c then snd (rand w) else w in
  if hasNeutrons c then
    let dn := (- log (fst (rand w1)) / neutronRate m c)%float in
    if PrimFloat.ltb dn d then Some 0 else ch
  else ch.

End WinnerVocabulary.

(** The values of a sequence that differ from the value before them,
    [prev] standing before the first. *)
Fixpoint changes (prev : float) (l : list float) : list float :=
  match l with
  | [] => []
  | z :: l' => if fne z prev then z :: changes z l' else changes z l'
  end.

(** No element of the sequence is smaller than the one before it, [prev]
    standing before the first. *)
Fixpoint never_descends (prev : float) (l : list float) : bool :=
  match l with
  | [] => true
  | a :: l' => negb (PrimFloat.ltb a prev) && never_descends a l'
  end.

(** The four arrays of a loader are aligned: the two rate arrays have the
    same length and neither grid is longer than them. *)
Definition aligned (st : loader) : Prop :=
  List.length (ld_tabProtonRate st) = List.length (ld_tabNeutronRate st)
  /\ (List.length (ld_tabLorentz st) <= List.length (ld_tabProtonRate st))%nat
  /\ (List.length (ld_tabRedshifts st) <= List.length (ld_tabProtonRate st))%nat.

(** How many numbers a data row holds. *)
Definition columns (redshiftDependent : bool) : nat :=
  if redshiftDependent then 4%nat else 3%nat.

(** Whether [init()] reads the table of a field in the four-column mode:
    the field with a redshift axis sets [doRedshiftDependent]; no field
    clears it. *)
Definition fourColumns (m : PhotoPionProduction) (field : PhotonField) : bool :=
  match field with
  | IRB_withRedshift_Kneiske04 => true
  | _ => doRedshiftDependent m
  end.

(** ** Sample runs

    Candidates, events and files for the worked examples of the further
    properties, on the collaborators of [Sample]. *)
Module Runs.

(** A bare proton of 150 J and carbon-12 of 1800 J (gamma about 1e12). *)
Definition proton : Candidate := Sample.nucleus 1 1 150 [].

Definition carbon : Candidate := Sample.nucleus 12 6 1800 [].

(** A bare neutron that is given an unbounded step. *)
Definition neutron_unbounded : Candidate :=
  mkCandidate (mkParticleState (@nucleusId Sample.pid 1 0) 150%float)
              0%float infinity 1e30%float [].

(** The proton after it was replaced by an outgoing proton of 5e11 GeV. *)
Definition proton_after : Candidate :=
  mkCandidate (mkParticleState (@nucleusId Sample.pid 1 1)
                               (5e11 * @GeV Sample.units)%float)
              0%float 1e22%float 1e30%float [].

(** The sample CMB module after a field with a redshift axis was selected
    once. *)
Definition cmb_flagged : PhotoPionProduction :=
  setDoRedshiftDependent Sample.cmb true.

(** A three-column table of four rows, as the text of a file. *)
Definition three_columns : stream :=
  render false (map (fun a => ERow (mkRow 0 a 1 2 []))
                    [8; 9; 10; 11]%float).

(** A world of the sample runtime from its two tapes. *)
Definition tape (us : list float) (evs : list (list particle))
  : @World Sample.rt :=
  Sample.mkTapes us evs.

(** A file whose second line is broken. *)
Definition broken : stream :=
  [TextLine [Num 8; Num 1; Num 2]%float; TextLine [Junk];
   TextLine [Num 9; Num 3; Num 4]%float].

End Runs.

(** ** Collaborators with an evolving photon field

    A second instance of [crpropa/Common.h] for runs at a redshift other
    than zero: a photon density that evolves for every field but the CMB,
    and an [interpolate2d] that does interpolate in two dimensions. *)
Module Evolving.

(** The stacked array [T] cut into blocks of [n] values. *)
Fixpoint blocks (fuel n : nat) (T : list float) : list (list float) :=
  match fuel with
  | O => []
  | S fuel' =>
      match T with
      | [] => []
      | _ :: _ => firstn n T :: blocks fuel' n (skipn n T)
      end
  end.

(** Bilinear interpolation: in [y] on the grid [Y] within each block of
    [T], then in [x] on the grid [X] across the blocks. *)
Definition bilinear (x y : float) (X Y T : list float) : float :=
  Sample.linear x X
    (map (Sample.linear y Y) (blocks (List.length T) (List.length Y) T)).

(** The density of the CMB is constant in comoving units; the others are
    given the evolution [1 + z / 2]. *)
Definition evolution (field : PhotonField) (z : float) : float :=
  if PhotonField_is_CMB field then 1%float else (1 + z / 2)%float.

#[export] Instance cmn : Common := {|
  getDataPath := fun f => ("share/crpropa/" ++ f)%string;
  interpolate := Sample.linear;
  interpolate2d := bilinear;
  photonFieldScaling := evolution
|}.

(** An infrared background without a redshift axis, on the three-point
    table of [Sample.cmb]. *)
Definition irb : PhotoPionProduction :=
  mkPPP "PhotoPionProduction: IRB Kneiske '04" IRB_Kneiske04 true true true
        false 0.1%float
        [1e10; 1e11; 1e12]%float [] [1e-24; 2e-24; 4e-24]%float
        [1e-24; 3e-24; 5e-24]%float.

(** An infrared background with a redshift axis: the block of z = 0 and a
    block of z = 2 with three times the rates. *)
Definition irbz : PhotoPionProduction :=
  mkPPP "PhotoPionProduction: IRB with redshift Kneiske '04"
        IRB_withRedshift_Kneiske04 true true true true 0.1%float
        [1e10; 1e11; 1e12]%float [0; 2]%float
        [1e-24; 2e-24; 4e-24; 3e-24; 6e-24; 12e-24]%float
        [1e-24; 3e-24; 5e-24; 3e-24; 9e-24; 15e-24]%float.

(** Carbon-12 of 900 J at redshift 1: gamma about 5e11, boosted to about
    1e12. *)
Definition carbon : Candidate :=
  mkCandidate (mkParticleState (@nucleusId Sample.pid 12 6) 900%float)
              1%float 1e22%float 1e30%float [].

(** A world of the sample runtime from its two tapes. *)
Definition tape (us : list float) (evs : list (list particle))
  : @World Sample.rt :=
  Sample.mkTapes us evs.

End Evolving.

(** The table file that [init()] asks [getDataPath] for, field by field;
    the default infrared background is the one of Kneiske '04. *)
Definition tableFile (field : PhotonField) : option string :=
  match field with
  | CMB => Some "ppp_CMB.txt"%string
  | IRB => Some "ppp_IRB_Kneiske04.txt"%string
  | IRB_Kneiske04 => Some "ppp_IRB_Kneiske04.txt"%string
  | IRB_Kneiske10 => Some "ppp_IRB_Kneiske10.txt"%string
  | IRB_Stecker05 => Some "ppp_IRB_Stecker05.txt"%string
  | IRB_Franceschini08 => Some "ppp_IRB_Franceschini08.txt"%string
  | IRB_withRedshift_Kneiske04 => Some "ppp_IRBz_Kneiske04.txt"%string
  | PhotonField_other _ => None
  end.

(** The description that [init()] sets, field by field. *)
Definition fieldDescription (field : PhotonField) : option string :=
  match field with
  | CMB => Some "PhotoPionProduction: CMB"%string
  | IRB => Some "PhotoPionProduction: IRB Kneiske '04"%string
  | IRB_Kneiske04 => Some "PhotoPionProduction: IRB Kneiske '04"%string
  | IRB_Kneiske10 => Some "PhotoPionProduction: IRB Kneiske '10 (lower limit)"%string
  | IRB_Stecker05 => Some "PhotoPionProduction: IRB Stecker '05"%string
  | IRB_Franceschini08 => Some "PhotoPionProduction: IRB Franceschini '08"%string
  | IRB_withRedshift_Kneiske04 =>
      Some "PhotoPionProduction: IRB with redshift Kneiske '04"%string
  | PhotonField_other _ => None
  end.

(** * Properties *)

(** ** Nucleus modification model *)

(** C4. The modification factor is 1.0 for A = 1, 0.85 * pow(X, 2./3.) for
    1 < A <= 8 and 0.85 * X for A > 8; in particular
    nucleiModification(1, X) = 1.0, nucleiModification(4, 2) =
    0.85 * pow(2, 2./3.) and nucleiModification(16, 8) = 0.85 * 8 = 6.8. *)
Theorem nucleiModification_cases (libm : Libm) :
  (forall X, nucleiModification 1 X = 1%float) /\
  (forall A X, 1 < A <= 8 ->
     nucleiModification A X = (0.85 * pow (double_of_int X) (2 / 3))%float) /\
  (forall A X, 8 < A ->
     nucleiModification A X = (0.85 * double_of_int X)%float) /\
  nucleiModification 4 2 = (0.85 * pow 2 (2 / 3))%float /\
  nucleiModification 16 8 = (0.85 * 8)%float /\
  nucleiModification 16 8 = 6.8%float.
Proof.
  repeat split.
  - intros A X [Hlo Hhi]. unfold nucleiModification.
    destruct (Z.eqb_spec A 1) as [->|_]; [lia|].
    destruct (Z.leb_spec A 8); [reflexivity|lia].
  - intros A X Hhi. unfold nucleiModification.
    destruct (Z.eqb_spec A 1) as [->|_]; [lia|].
    destruct (Z.leb_spec A 8); [lia|reflexivity].
Qed.

(** Helium-4 with its two protons: 0.85 * pow(2, 2./3.). *)
Lemma nucleiModification_cases_witness :
  @nucleiModification Sample.libm 4 2
  = (0.85 * @pow Sample.libm (double_of_int 2) (2 / 3))%float.
Proof.
  refine (proj1 (proj2 (nucleiModification_cases Sample.libm)) 4 2 _). lia.
Defined.

(** ** Interaction event translator *)

Section TranslatorFacts.
Context {units : Units} {pid : ParticleID} {rt : Runtime}.
Variable m : PhotoPionProduction.
Variables sign A Z channel : BinNums.Z.
Variables E EpA : float.

Lemma addSecondaries_nil (c : Candidate) : addSecondaries c [] = c.
Proof. destruct c; unfold addSecondaries; simpl. now rewrite app_nil_r. Qed.

Lemma addSecondaries_app (c : Candidate) (l1 l2 : list (BinNums.Z * float)) :
  addSecondaries (addSecondaries c l1) l2 = addSecondaries c (l1 ++ l2).
Proof. unfold addSecondaries; simpl. now rewrite app_assoc. Qed.

Lemma addSecondary_addSecondaries (c : Candidate) (id : BinNums.Z) (e : float) :
  addSecondary c id e = addSecondaries c [(id, e)].
Proof. reflexivity. Qed.

(** A particle that is not a nucleon leaves the primary as it is. *)
Lemma translate_particle_other (p : particle) (c : Candidate) :
  is_other_code (fst p) = true ->
  translate_particle m sign A Z channel E EpA p c
  = Normal (addSecondaries c (recorded m sign p)).
Proof.
  destruct p as [pType e]. unfold is_other_code. simpl.
  rewrite !orb_true_iff, !Z.eqb_eq.
  intros H.
  unfold translate_particle, recorded.
  repeat (destruct H as [H|H]; [subst pType; simpl;
    destruct (haveAntiNucleons m), (havePhotons m), (haveNeutrinos m);
    rewrite ?addSecondaries_nil; reflexivity |]).
  discriminate H.
Qed.

Lemma translate_particles_others (ps : list particle) : forall c : Candidate,
  Forall (fun p => is_other_code (fst p) = true) ps ->
  translate_particles m sign A Z channel E EpA ps c
  = Normal (addSecondaries c (flat_map (recorded m sign) ps)).
Proof.
  induction ps as [|p ps IH]; intros c Hps; simpl.
  - now rewrite addSecondaries_nil.
  - inversion Hps as [|? ? Hp Hps']; subst.
    rewrite (translate_particle_other p c Hp), (IH _ Hps').
    now rewrite addSecondaries_app.
Qed.

Lemma translate_particles_app (ps1 ps2 : list particle) : forall c c1 : Candidate,
  translate_particles m sign A Z channel E EpA ps1 c = Normal c1 ->
  translate_particles m sign A Z channel E EpA (ps1 ++ ps2) c
  = translate_particles m sign A Z channel E EpA ps2 c1.
Proof.
  induction ps1 as [|p ps1 IH]; intros c c1 H; simpl in *.
  - now inversion H.
  - destruct (translate_particle m sign A Z channel E EpA p c); try discriminate.
    now apply IH.
Qed.

(** On a bare nucleon, a particle with a case in the switch never appends
    a nucleon: it rewrites the primary or records a non-nucleon. *)
Lemma translate_particle_bare (p : particle) (c : Candidate) :
  A = 1 ->
  is_nucleon_code (fst p) = true ->
  translate_particle m sign A Z channel E EpA p c
  = Normal (setId (setEnergy c (snd p * GeV)%float)
                  (sign * nucleusId 1 (14 - fst p))).
Proof.
  intros -> Hp. unfold translate_particle, is_nucleon_code in *.
  now rewrite Hp.
Qed.

Lemma translate_particle_bound (p : particle) (c : Candidate) :
  A <> 1 ->
  is_nucleon_code (fst p) = true ->
  translate_particle m sign A Z channel E EpA p c
  = Normal (addSecondary
              (setId (setEnergy c (E - EpA)%float)
                     (sign * nucleusId (A - 1) (Z - channel)))
              (sign * nucleusId 1 (14 - fst p)) (snd p * GeV)%float).
Proof.
  intros HA Hp. unfold translate_particle, is_nucleon_code in *.
  rewrite Hp. destruct (Z.eqb_spec A 1); [contradiction|reflexivity].
Qed.

End TranslatorFacts.

Section TranslatorBare.
Context {units : Units} {pid : ParticleID} {rt : Runtime}.
Variable m : PhotoPionProduction.
Variables sign Z channel : BinNums.Z.
Variables E EpA : float.

Lemma recorded_nucleon (p : particle) :
  is_nucleon_code (fst p) = true -> recorded m sign p = [].
Proof.
  destruct p as [pType e]; unfold is_nucleon_code; simpl.
  rewrite orb_true_iff, !Z.eqb_eq. now intros [-> | ->].
Qed.

(** On a bare nucleon the loop never touches anything but the current
    particle and the secondaries, and appends the recorded non-nucleons
    only. *)
Lemma translate_particles_bare (ps : list particle) : forall c : Candidate,
  Forall (fun p => is_nucleon_code (fst p) || is_other_code (fst p) = true) ps ->
  exists st : ParticleState,
    translate_particles m sign 1 Z channel E EpA ps c
    = Normal (mkCandidate st (getRedshift c) (getCurrentStep c) (getNextStep c)
                          (secondaries c ++ flat_map (recorded m sign) ps)).
Proof.
  induction ps as [|p ps IH]; intros c Hps.
  - exists (current c). simpl. rewrite app_nil_r. now destruct c.
  - inversion Hps as [|? ? Hp Hps']; subst. simpl.
    destruct (is_nucleon_code (fst p)) eqn:Hn.
    + rewrite (translate_particle_bare m sign 1 Z channel E EpA p c eq_refl Hn).
      destruct (IH (setId (setEnergy c (snd p * GeV)%float)
                          (sign * nucleusId 1 (14 - fst p))) Hps') as [st Hst].
      exists st. rewrite Hst. simpl. now rewrite (recorded_nucleon p Hn).
    + simpl in Hp.
      rewrite (translate_particle_other m sign 1 Z channel E EpA p c Hp).
      destruct (IH (addSecondaries c (recorded m sign p)) Hps') as [st Hst].
      exists st. rewrite Hst. simpl. now rewrite app_assoc.
Qed.

End TranslatorBare.

(** C1. A nucleus with A > 1 interacting on channel [ch] (1: proton,
    0: neutron), for which the generator returns one outgoing nucleon code
    [pType] with energy component [e] among other particles, becomes the
    daughter nucleus of mass A - 1 and charge Z - 1 (proton channel) or Z
    (neutron channel) with energy E - E/A, and exactly one nucleon
    secondary of energy Eout = e * GeV is appended, in generator order
    between the recorded non-nucleon secondaries. *)
Theorem performInteraction_bound_nucleon
    {units : Units} {pid : ParticleID} {rt : Runtime}
    (m : PhotoPionProduction) (c : Candidate) (ch : Z) (w w' : World)
    (pre post : list particle) (pType : Z) (e : float) :
  let id := getId (current c) in
  let A := massNumber id in
  let Z := chargeNumber id in
  let E := getEnergy (current c) in
  1 < A ->
  ch = 1 \/ ch = 0 ->
  generated m c ch w = (pre ++ (pType, e) :: post, w') ->
  is_nucleon_code pType = true ->
  Forall (fun p => is_other_code (fst p) = true) pre ->
  Forall (fun p => is_other_code (fst p) = true) post ->
  performInteraction m c ch w
  = Normal
      (mkCandidate
         (mkParticleState
            (sign_of id * nucleusId (A - 1) (if ch =? 1 then Z - 1 else Z))
            (E - E / double_of_int A)%float)
         (getRedshift c) (getCurrentStep c) (getNextStep c)
         (secondaries c
          ++ flat_map (recorded m (sign_of id)) pre
          ++ [(sign_of id * nucleusId 1 (14 - pType), (e * GeV)%float)]
          ++ flat_map (recorded m (sign_of id)) post),
       w').
Proof.
  intros id A Z E HA Hch Hgen Hn Hpre Hpost.
  unfold performInteraction. unfold generated in Hgen.
  fold id A Z E. fold id A E in Hgen. rewrite Hgen.
  fold (sign_of id).
  rewrite (translate_particles_app m (sign_of id) A Z ch E _ pre _ c _
             (translate_particles_others m (sign_of id) A Z ch E _ pre c Hpre)).
  simpl translate_particles.
  rewrite (translate_particle_bound m (sign_of id) A Z ch E _ (pType, e) _
             ltac:(lia) Hn).
  rewrite translate_particles_others by exact Hpost.
  f_equal. f_equal. unfold addSecondaries, addSecondary, setId, setEnergy; simpl.
  replace (Z - ch) with (if ch =? 1 then Z - 1 else Z)
    by (destruct Hch as [-> | ->]; simpl; lia).
  now rewrite <- !app_assoc.
Qed.

(** C6. A bare nucleon (A = 1) for which the generator returns an outgoing
    nucleon code [pType] with energy component [e] (the last nucleon code
    of the event) has its identity and energy replaced in place by that
    nucleon at Eout = e * GeV, with the sign of the original identity; the
    secondaries appended are the recorded non-nucleons only, so none stands
    for the outgoing nucleon.  A bare proton for which the code is 13 stays
    a bare proton. *)
Theorem performInteraction_bare_nucleon
    {units : Units} {pid : ParticleID} {rt : Runtime}
    (m : PhotoPionProduction) (c : Candidate) (ch : Z) (w w' : World)
    (pre post : list particle) (pType : Z) (e : float) :
  let id := getId (current c) in
  massNumber id = 1 ->
  generated m c ch w = (pre ++ (pType, e) :: post, w') ->
  is_nucleon_code pType = true ->
  Forall (fun p => is_nucleon_code (fst p) || is_other_code (fst p) = true) pre ->
  Forall (fun p => is_other_code (fst p) = true) post ->
  performInteraction m c ch w
  = Normal
      (mkCandidate
         (mkParticleState (sign_of id * nucleusId 1 (14 - pType)) (e * GeV)%float)
         (getRedshift c) (getCurrentStep c) (getNextStep c)
         (secondaries c ++ flat_map (recorded m (sign_of id)) (pre ++ post)),
       w')
  /\ (pType = 13 -> id = nucleusId 1 1 -> 0 < id ->
      sign_of id * nucleusId 1 (14 - pType) = id).
Proof.
  intros id HA Hgen Hn Hpre Hpost. split.
  - unfold performInteraction. unfold generated in Hgen.
    fold id. fold id in Hgen. rewrite HA in *. rewrite Hgen.
    fold (sign_of id).
    set (Z := chargeNumber id). set (E := getEnergy (current c)).
    set (EpA := (E / double_of_int 1)%float).
    destruct (translate_particles_bare m (sign_of id) Z ch E EpA pre c Hpre)
      as [st Hst].
    rewrite (translate_particles_app m (sign_of id) 1 Z ch E EpA pre _ c _ Hst).
    simpl translate_particles.
    rewrite (translate_particle_bare m (sign_of id) 1 Z ch E EpA (pType, e) _
               eq_refl Hn).
    rewrite translate_particles_others by exact Hpost.
    f_equal. f_equal. unfold addSecondaries, setId, setEnergy; simpl.
    now rewrite flat_map_app, app_assoc.
  - intros -> Hid Hpos. unfold sign_of.
    destruct (Z.gtb_spec id 0); [|lia].
    replace (14 - 13) with 1 by lia. rewrite <- Hid. lia.
Qed.

(** Carbon-12 on its proton channel: the event is a photon, a proton and a
    muon neutrino; the candidate becomes boron-11 (A = 11, Z = 5) with
    energy 1800 - 1800/12 and the proton is the one nucleon secondary. *)
Lemma performInteraction_bound_nucleon_witness :
  @performInteraction Sample.units Sample.pid Sample.rt
    Sample.cmb (Sample.nucleus 12 6 1800 []) 1
    (Sample.mkTapes [] [[(1, 1e8%float); (13, 8e11%float); (17, 2e8%float)]])
  = Normal
      (mkCandidate
         (mkParticleState (@nucleusId Sample.pid 11 5) (1800 - 1800 / 12)%float)
         0%float 1e22%float 1e30%float
         [(22, (1e8 * @GeV Sample.units)%float);
          (@nucleusId Sample.pid 1 1, (8e11 * @GeV Sample.units)%float);
          (14, (2e8 * @GeV Sample.units)%float)],
       Sample.mkTapes [] []).
Proof.
  refine (eq_trans
            (@performInteraction_bound_nucleon Sample.units Sample.pid Sample.rt
               Sample.cmb (Sample.nucleus 12 6 1800 []) 1 _ (Sample.mkTapes [] [])
               [(1, 1e8%float)] [(17, 2e8%float)] 13 8e11%float _ _ _ _ _ _) _).
  - vm_compute; reflexivity.
  - left; reflexivity.
  - vm_compute; reflexivity.
  - vm_compute; reflexivity.
  - repeat constructor.
  - repeat constructor.
  - vm_compute; reflexivity.
Defined.

(** A bare proton for which the generator returns a photon and a single
    proton code stays a bare proton, with the energy of the outgoing proton
    and the photon as only secondary. *)
Lemma performInteraction_bare_nucleon_witness :
  @performInteraction Sample.units Sample.pid Sample.rt
    Sample.cmb (Sample.nucleus 1 1 150 []) 1
    (Sample.mkTapes [] [[(1, 1e8%float); (13, 5e11%float)]])
  = Normal
      (mkCandidate
         (mkParticleState (@nucleusId Sample.pid 1 1) (5e11 * @GeV Sample.units)%float)
         0%float 1e22%float 1e30%float
         [(22, (1e8 * @GeV Sample.units)%float)],
       Sample.mkTapes [] []).
Proof.
  refine (eq_trans
            (proj1 (@performInteraction_bare_nucleon Sample.units Sample.pid Sample.rt
               Sample.cmb (Sample.nucleus 1 1 150 []) 1 _ (Sample.mkTapes [] [])
               [(1, 1e8%float)] [] 13 5e11%float _ _ _ _ _)) _).
  - vm_compute; reflexivity.
  - vm_compute; reflexivity.
  - vm_compute; reflexivity.
  - repeat constructor.
  - constructor.
  - vm_compute; reflexivity.
Defined.

(** ** Stochastic step integrator and loss-length estimator *)

(** Case analysis on the draws and comparisons of [sample_channels]. *)
Ltac sample_cases :=
  simpl;
  repeat match goal with
         | |- context [rand ?x] => destruct (rand x); simpl
         | |- context [if ?b then _ else _] => destruct b; simpl
         end;
  reflexivity.

Section ProcessFacts.
Context {libm : Libm} {units : Units} {pid : ParticleID} {cmn : Common}
        {rt : Runtime} {kin : Kinematics}.
Variable m : PhotoPionProduction.

Lemma sample_channels_totalRate (c : Candidate) (w : World) :
  totalRate (fst (sample_channels m c w)) = summedRate m c.
Proof.
  unfold sample_channels, summedRate, hasProtons, hasNeutrons,
         protonRate, neutronRate.
  destruct (chargeNumber (getId (current c)) >? 0);
    destruct (massNumber (getId (current c)) - chargeNumber (getId (current c)) >? 0);
    sample_cases.
Qed.

Lemma sample_channels_world (c : Candidate) (w : World) :
  snd (sample_channels m c w) = drawn c w.
Proof.
  unfold sample_channels, drawn, hasProtons, hasNeutrons.
  destruct (chargeNumber (getId (current c)) >? 0);
    destruct (massNumber (getId (current c)) - chargeNumber (getId (current c)) >? 0);
    sample_cases.
Qed.

Lemma sample_channels_randDistance (c : Candidate) (w : World) :
  randDistance (fst (sample_channels m c w)) = minDistance m c w.
Proof.
  unfold sample_channels, minDistance, hasProtons, hasNeutrons,
         protonRate, neutronRate.
  destruct (chargeNumber (getId (current c)) >? 0);
    destruct (massNumber (getId (current c)) - chargeNumber (getId (current c)) >? 0);
    sample_cases.
Qed.

(** One iteration that reaches the comparison with the remaining step and
    finds the step shorter than the sampled distance. *)
Lemma process_loop_defer (fuel : nat) (step : float) (c : Candidate) (w : World) :
  isNucleus (getId (current c)) = true ->
  outOfRange m (boostedGamma c) = Some false ->
  PrimFloat.ltb step (randDistance (fst (sample_channels m c w))) = true ->
  process_loop (S fuel) m step c w
  = Normal (limitNextStep c (limit m / totalRate (fst (sample_channels m c w)))%float,
            snd (sample_channels m c w)).
Proof.
  intros Hnuc Hrange Hstep. simpl. rewrite Hnuc, Hrange. simpl.
  destruct (sample_channels m c w) as [s w1]. simpl in *.
  now rewrite Hstep.
Qed.

End ProcessFacts.

(** C2. In any iteration of [process] on a nucleus whose boosted Lorentz
    factor is in the tabulated range, if the remaining step is strictly
    less than the smallest sampled channel distance, the call returns in
    that iteration (whatever the number of iterations allowed): the
    generator is not called, only the variates of the available channels
    are drawn, and the candidate is unchanged except that its next step is
    capped at limit / totalRate, totalRate being the sum of the rates of the
    available channels. *)
Theorem process_defers
    {libm : Libm} {units : Units} {pid : ParticleID} {cmn : Common}
    {rt : Runtime} {kin : Kinematics}
    (m : PhotoPionProduction) (fuel : nat) (step : float) (c : Candidate)
    (w : World) :
  isNucleus (getId (current c)) = true ->
  outOfRange m (boostedGamma c) = Some false ->
  PrimFloat.ltb step (minDistance m c w) = true ->
  process_loop (S fuel) m step c w
  = Normal
      (mkCandidate (current c) (getRedshift c) (getCurrentStep c)
                   (std_min (getNextStep c) (limit m / summedRate m c)%float)
                   (secondaries c),
       drawn c w).
Proof.
  intros Hnuc Hrange Hstep.
  rewrite <- sample_channels_randDistance in Hstep.
  rewrite (process_loop_defer m fuel step c w Hnuc Hrange Hstep).
  now rewrite sample_channels_totalRate, sample_channels_world.
Qed.

(** C3. Outside the tabulated range (boosted Lorentz factor strictly below
    the first or strictly above the last grid point) [process] returns the
    candidate and the world as they are, without error, and [lossLength]
    returns the largest finite double. *)
Theorem out_of_range_no_interaction
    {libm : Libm} {units : Units} {pid : ParticleID} {cmn : Common}
    {rt : Runtime} {kin : Kinematics}
    (m : PhotoPionProduction) (lo hi : float) :
  front (tabLorentz m) = Some lo ->
  back (tabLorentz m) = Some hi ->
  (forall (fuel : nat) (c : Candidate) (w : World),
     PrimFloat.ltb (boostedGamma c) lo = true
     \/ PrimFloat.ltb hi (boostedGamma c) = true ->
     process (S fuel) m c w = Normal (c, w))
  /\ (forall (id : Z) (gamma z : float),
     PrimFloat.ltb (gamma * (1 + z)) lo = true
     \/ PrimFloat.ltb hi (gamma * (1 + z)) = true ->
     lossLength m id gamma z = Normal DBL_MAX).
Proof.
  intros Hlo Hhi.
  assert (Hout : forall g : float,
            PrimFloat.ltb g lo = true \/ PrimFloat.ltb hi g = true ->
            outOfRange m g = Some true).
  { intros g Hg. unfold outOfRange, fgt. rewrite Hlo, Hhi. f_equal.
    apply orb_true_iff. exact Hg. }
  split.
  - intros fuel c w Hg. unfold process. simpl.
    destruct (isNucleus (getId (current c))); simpl; [|reflexivity].
    now rewrite (Hout _ Hg).
  - intros id gamma z Hg. unfold lossLength. now rewrite (Hout _ Hg).
Qed.

(** The anchor of C2: carbon-12 with a step of 1e22 m, variates 0.5 and
    0.25; the smallest sampled distance is 3.4e22 m, so the step is
    deferred and the next step capped at 0.1 / totalRate = 2.18e21 m. *)
Lemma process_defers_witness :
  @process_loop Sample.libm Sample.units Sample.pid Sample.cmn Sample.rt Sample.kin
    1 Sample.cmb 1e22%float (Sample.nucleus 12 6 1800 [])
    (Sample.mkTapes [0.5; 0.25]%float [])
  = Normal
      (mkCandidate (mkParticleState (@nucleusId Sample.pid 12 6) 1800%float)
                   0%float 1e22%float 2.1810135322074897e+21%float [],
       Sample.mkTapes [] []).
Proof.
  refine (eq_trans
            (@process_defers Sample.libm Sample.units Sample.pid Sample.cmn
               Sample.rt Sample.kin Sample.cmb 0 1e22%float
               (Sample.nucleus 12 6 1800 [])
               (Sample.mkTapes [0.5; 0.25]%float []) _ _ _) _);
    vm_compute; reflexivity.
Defined.

(** Carbon-12 at ten times the energy is above the last grid point. *)
Lemma out_of_range_no_interaction_witness :
  @process Sample.libm Sample.units Sample.pid Sample.cmn Sample.rt Sample.kin
    1 Sample.cmb (Sample.nucleus 12 6 18000 [])
    (Sample.mkTapes [0.5; 0.25]%float [])
  = Normal (Sample.nucleus 12 6 18000 [], Sample.mkTapes [0.5; 0.25]%float [])
  /\ @lossLength Sample.libm Sample.pid Sample.cmn
       Sample.cmb (@nucleusId Sample.pid 12 6) 1e9%float 0%float
     = Normal DBL_MAX.
Proof.
  assert (Hlo : front (tabLorentz Sample.cmb) = Some 1e10%float) by reflexivity.
  assert (Hhi : back (tabLorentz Sample.cmb) = Some 1e12%float) by reflexivity.
  split.
  - apply (proj1 (@out_of_range_no_interaction Sample.libm Sample.units
                    Sample.pid Sample.cmn Sample.rt Sample.kin
                    Sample.cmb _ _ Hlo Hhi)).
    right. vm_compute; reflexivity.
  - apply (proj2 (@out_of_range_no_interaction Sample.libm Sample.units
                    Sample.pid Sample.cmn Sample.rt Sample.kin
                    Sample.cmb _ _ Hlo Hhi)).
    left. vm_compute; reflexivity.
Defined.

(** C5. With a redshift-independent table the lookup is made at the boosted
    Lorentz factor gamma * (1 + z).  In the step integrator the interpolated
    rate of each channel is multiplied by pow(1 + z, 2) *
    photonFieldScaling(field, z): this scaled rate is the divisor of the
    sampled distance -log(u) / rate, the summand of totalRate, and so the
    rate behind the cap limit / totalRate that [process] sets when it
    defers.  In the loss-length estimator the rate is multiplied by
    pow(1 + z, 3) * photonFieldScaling(field, z). *)
Theorem redshift_scaling
    {libm : Libm} {units : Units} {pid : ParticleID} {cmn : Common}
    {rt : Runtime} {kin : Kinematics} (m : PhotoPionProduction) :
  doRedshiftDependent m = false ->
  (forall (c : Candidate) (w : World),
     let z := getRedshift c in
     let g := ((1 + z) * lorentzFactor (current c))%float in
     let k := (pow (1 + z) 2 * photonFieldScaling (photonField m) z)%float in
     let A := massNumber (getId (current c)) in
     let Z := chargeNumber (getId (current c)) in
     let rp := (k * interpolate g (tabLorentz m) (tabProtonRate m)
                * nucleiModification A Z)%float in
     let rn := (k * interpolate g (tabLorentz m) (tabNeutronRate m)
                * nucleiModification A (A - Z))%float in
     let t := if Z >? 0 then (0 + rp)%float else 0%float in
     let total := if A - Z >? 0 then (t + rn)%float else t in
     let d := if Z >? 0 then (- log (fst (rand w)) / rp)%float else DBL_MAX in
     let w1 := if Z >? 0 then snd (rand w) else w in
     let dmin := if A - Z >? 0
                 then let dn := (- log (fst (rand w1)) / rn)%float in
                      if PrimFloat.ltb dn d then dn else d
                 else d in
     totalRate (fst (sample_channels m c w)) = total
     /\ randDistance (fst (sample_channels m c w)) = dmin
     /\ (forall (fuel : nat) (step : float),
           isNucleus (getId (current c)) = true ->
           outOfRange m g = Some false ->
           PrimFloat.ltb step dmin = true ->
           process_loop (S fuel) m step c w
           = Normal (limitNextStep c (limit m / total)%float, drawn c w)))
  /\ (forall (id : Z) (gamma z : float),
     let g := (gamma * (1 + z))%float in
     let A := massNumber id in
     let Z := chargeNumber id in
     let l := if Z >? 0
              then (0 + interpolate g (tabLorentz m) (tabProtonRate m)
                        * nucleiModification A Z)%float
              else 0%float in
     let l := if A - Z >? 0
              then (l + interpolate g (tabLorentz m) (tabProtonRate m)
                        * nucleiModification A (A - Z))%float
              else l in
     outOfRange m g = Some false ->
     lossLength m id gamma z
     = Normal (1 / (l * relativeEnergyLoss A
                    * (pow (1 + z) 3 * photonFieldScaling (photonField m) z)))%float).
Proof.
  intros Hrd. split.
  - intros c w z g k A Z rp rn t total d w1 dmin.
    assert (Ht : totalRate (fst (sample_channels m c w)) = total).
    { rewrite sample_channels_totalRate.
      unfold summedRate, hasProtons, hasNeutrons, protonRate, neutronRate,
             channelRate, scaling, boostedGamma, getLorentzFactor.
      rewrite Hrd. reflexivity. }
    assert (Hd : randDistance (fst (sample_channels m c w)) = dmin).
    { rewrite sample_channels_randDistance.
      unfold minDistance, hasProtons, hasNeutrons, protonRate, neutronRate,
             channelRate, scaling, boostedGamma, getLorentzFactor.
      rewrite Hrd. reflexivity. }
    split; [exact Ht|]. split; [exact Hd|].
    intros fuel step Hnuc Hrange Hstep. rewrite <- Hd in Hstep.
    rewrite (process_loop_defer m fuel step c w Hnuc Hrange Hstep).
    now rewrite Ht, sample_channels_world.
  - intros id gamma z g A Z l l' Hrange. unfold lossLength.
    fold g. rewrite Hrange. reflexivity.
Qed.

Section RedshiftScalingExample.
#[local] Existing Instance Sample.libm.
#[local] Existing Instance Sample.units.
#[local] Existing Instance Sample.pid.
#[local] Existing Instance Evolving.cmn.
#[local] Existing Instance Sample.rt.
#[local] Existing Instance Sample.kin.

(** Carbon-12 at redshift 1 in the evolving infrared background, where
    pow(1 + z, 2) * photonFieldScaling = 4 * 1.5 and pow(1 + z, 3) *
    photonFieldScaling = 8 * 1.5.  The lookup is at the boosted
    gamma = 9.978e11 (4.0e-24 and 5.0e-24 on the two tables, against 2.9e-24
    and 3.9e-24 at the unboosted 4.989e11).  totalRate is 6 * 0.85 * 6 times
    their sum, the sampled distance -log(0.5) / (6 * 0.85 * 6 * 4.0e-24) and
    the cap 0.1 / totalRate.  The loss length at gamma = 5e11 is looked up
    at 1e12 (4e-24): 1 / (2 * 4e-24 * 0.85 * 6 / 12 * 12).  The same
    candidate on the same table read as one with a redshift axis has
    another totalRate. *)
Lemma redshift_scaling_witness :
  let w := Evolving.tape [0.5; 0.25]%float [] in
  totalRate (fst (sample_channels Evolving.irb Evolving.carbon w))
  = 2.7510145679505089e-22%float
  /\ randDistance (fst (sample_channels Evolving.irb Evolving.carbon w))
     = 5.6698818047613002e+21%float
  /\ process_loop 1 Evolving.irb 1e21%float Evolving.carbon w
     = Normal
         (mkCandidate (mkParticleState 1000060120 900%float)
                      1%float 1e22%float 3.6350225536791491e+20%float [],
          Evolving.tape [] [])
  /\ lossLength Evolving.irb 1000060120 5e11%float 1%float
     = Normal 2.4509803921568633e+22%float
  /\ PrimFloat.eqb
       (totalRate (fst (sample_channels Evolving.irb Evolving.carbon w)))
       (totalRate (fst (sample_channels (setDoRedshiftDependent Evolving.irb true)
                                        Evolving.carbon w)))
     = false.
Proof.
  intros w.
  destruct (proj1 (redshift_scaling Evolving.irb eq_refl) Evolving.carbon w)
    as (Ht & Hd & Hp).
  split; [refine (eq_trans Ht _); vm_compute; reflexivity|].
  split; [refine (eq_trans Hd _); vm_compute; reflexivity|].
  split.
  - refine (eq_trans (Hp 0%nat 1e21%float _ _ _) _); vm_compute; reflexivity.
  - split.
    + refine (eq_trans
                (proj2 (redshift_scaling Evolving.irb eq_refl)
                       1000060120 5e11%float 1%float _) _);
        vm_compute; reflexivity.
    + vm_compute; reflexivity.
Defined.

End RedshiftScalingExample.

(** C7. In [lossLength] the neutron contribution (added when N = A - Z > 0)
    is interpolate(gamma, tabLorentz, tabProtonRate) *
    nucleiModification(A, N): the result does not depend on the neutron
    rate table at all. *)
Theorem lossLength_neutron_uses_proton_table
    {libm : Libm} {pid : ParticleID} {cmn : Common}
    (m : PhotoPionProduction) (id : Z) (gamma z : float) :
  (forall tn : list float,
     lossLength (setTables m (tabLorentz m) (tabRedshifts m) (tabProtonRate m) tn)
                id gamma z
     = lossLength m id gamma z)
  /\ (let g := (gamma * (1 + z))%float in
      let A := massNumber id in
      let Z := chargeNumber id in
      let l := if Z >? 0
               then (0 + interpolate g (tabLorentz m) (tabProtonRate m)
                         * nucleiModification A Z)%float
               else 0%float in
      0 < A - Z ->
      outOfRange m g = Some false ->
      lossLength m id gamma z
      = Normal (1 / ((l + interpolate g (tabLorentz m) (tabProtonRate m)
                          * nucleiModification A (A - Z))
                     * relativeEnergyLoss A
                     * (pow (1 + z) 3 * photonFieldScaling (photonField m) z)))%float).
Proof.
  split.
  - intros tn. reflexivity.
  - intros g A Z l HN Hrange. unfold lossLength. fold g A Z.
    rewrite Hrange. destruct (Z.gtb_spec (A - Z) 0); [reflexivity|lia].
Qed.

(** A bare neutron at gamma = 1e11: its loss length is computed from the
    2e-24 of the proton table, where the neutron table holds 3e-24. *)
Lemma lossLength_neutron_uses_proton_table_witness :
  @lossLength Sample.libm Sample.pid Sample.cmn
    Sample.cmb (@nucleusId Sample.pid 1 0) 1e11%float 0%float
  = Normal (1 / ((0 + 2e-24 * 1) * (1 - 938 / 1232) * (1 * 1)))%float.
Proof.
  refine (eq_trans
            (proj2 (@lossLength_neutron_uses_proton_table Sample.libm Sample.pid
                      Sample.cmn Sample.cmb (@nucleusId Sample.pid 1 0)
                      1e11%float 0%float) _ _) _);
    vm_compute; reflexivity.
Defined.

(** ** Divisions by a rate *)

Lemma eqb_zero_cases (r : float) :
  PrimFloat.eqb r 0 = true -> r = 0%float \/ r = (-0)%float.
Proof.
  rewrite FloatAxioms.eqb_spec. intros H.
  rewrite <- (SF2Prim_Prim2SF r).
  destruct (Prim2SF r) as [[|]|s| |s mr er]; try discriminate H.
  - right; reflexivity.
  - left; reflexivity.
  - destruct s; discriminate H.
  - destruct s; discriminate H.
Qed.

(** [totalRate += rate] from zero with a zero rate leaves [+0.]. *)
Lemma add_zero_rate (r : float) :
  PrimFloat.eqb r 0 = true -> (0 + r)%float = 0%float.
Proof. intros H. destruct (eqb_zero_cases r H) as [-> | ->]; reflexivity. Qed.

(** A quotient by zero is never a finite number. *)
Lemma div_zero_not_finite (x : float) :
  (x / 0)%float = infinity \/ (x / 0)%float = neg_infinity \/ (x / 0)%float = nan.
Proof.
  rewrite <- (SF2Prim_Prim2SF (x / 0)), FloatAxioms.div_spec.
  destruct (Prim2SF x) as [[|]|[|]| |[|] mx ex]; cbn; auto.
Qed.

Section ZeroRates.
Context {libm : Libm} {units : Units} {pid : ParticleID} {cmn : Common}
        {rt : Runtime} {kin : Kinematics}.
Variable m : PhotoPionProduction.

Lemma summedRate_zero (c : Candidate) :
  (hasProtons c = true -> PrimFloat.eqb (protonRate m c) 0 = true) ->
  (hasNeutrons c = true -> PrimFloat.eqb (neutronRate m c) 0 = true) ->
  summedRate m c = 0%float.
Proof.
  intros HP HN. unfold summedRate.
  destruct (hasProtons c); destruct (hasNeutrons c);
    rewrite ?(add_zero_rate _ (HP eq_refl)), ?(add_zero_rate _ (HN eq_refl));
    reflexivity.
Qed.

End ZeroRates.

(** C10. [process] divides by the rate of each available channel when it
    samples a distance, and by totalRate when it defers, with no test on
    the divisor: the sampled distance is -log(u) / rate and the cap is
    limit / totalRate whatever the rates are.  When the rate of every
    available channel is zero, totalRate is zero and the deferral computes
    limit / 0, which is no finite number (an infinity or a NaN). *)
Theorem process_divides_unguarded
    {libm : Libm} {units : Units} {pid : ParticleID} {cmn : Common}
    {rt : Runtime} {kin : Kinematics}
    (m : PhotoPionProduction) (fuel : nat) (step : float) (c : Candidate)
    (w : World) :
  isNucleus (getId (current c)) = true ->
  outOfRange m (boostedGamma c) = Some false ->
  PrimFloat.ltb step (randDistance (fst (sample_channels m c w))) = true ->
  (randDistance (fst (sample_channels m c w))
   = let d := if hasProtons c
              then (- log (fst (rand w)) / protonRate m c)%float else DBL_MAX in
     let w1 := if hasProtons c then snd (rand w) else w in
     if hasNeutrons c then
       let dn := (- log (fst (rand w1)) / neutronRate m c)%float in
       if PrimFloat.ltb dn d then dn else d
     else d)
  /\ process_loop (S fuel) m step c w
     = Normal (limitNextStep c (limit m / summedRate m c)%float, drawn c w)
  /\ ((hasProtons c = true -> PrimFloat.eqb (protonRate m c) 0 = true) ->
      (hasNeutrons c = true -> PrimFloat.eqb (neutronRate m c) 0 = true) ->
      summedRate m c = 0%float
      /\ process_loop (S fuel) m step c w
         = Normal (limitNextStep c (limit m / 0)%float, drawn c w)
      /\ ((limit m / 0)%float = infinity
          \/ (limit m / 0)%float = neg_infinity
          \/ (limit m / 0)%float = nan)).
Proof.
  intros Hnuc Hrange Hstep.
  assert (Hloop : process_loop (S fuel) m step c w
                  = Normal (limitNextStep c (limit m / summedRate m c)%float,
                            drawn c w)).
  { rewrite (process_loop_defer m fuel step c w Hnuc Hrange Hstep).
    now rewrite sample_channels_totalRate, sample_channels_world. }
  split; [apply sample_channels_randDistance|].
  split; [exact Hloop|].
  intros HP HN.
  pose proof (summedRate_zero m c HP HN) as Hzero.
  split; [exact Hzero|].
  split; [now rewrite Hloop, Hzero|apply div_zero_not_finite].
Qed.

(** Carbon-12 in a field whose tabulated rates are all zero: both sampled
    distances are -log(u) / 0 = +infinity, the step is deferred, the cap is
    0.1 / 0 = +infinity and the next step stays at 1e30. *)
Lemma process_divides_unguarded_witness :
  @process_loop Sample.libm Sample.units Sample.pid Sample.cmn Sample.rt Sample.kin
    1 Sample.dark 1e22%float (Sample.nucleus 12 6 1800 [])
    (Sample.mkTapes [0.5; 0.25]%float [])
  = Normal
      (mkCandidate (mkParticleState (@nucleusId Sample.pid 12 6) 1800%float)
                   0%float 1e22%float (std_min 1e30 infinity) [],
       Sample.mkTapes [] []).
Proof.
  refine (eq_trans
            (proj1 (proj2
               (proj2 (proj2
                  (@process_divides_unguarded Sample.libm Sample.units Sample.pid
                     Sample.cmn Sample.rt Sample.kin Sample.dark 0 1e22%float
                     (Sample.nucleus 12 6 1800 [])
                     (Sample.mkTapes [0.5; 0.25]%float []) _ _ _)) _ _))) _);
    try (intros _); vm_compute; reflexivity.
Defined.

(** ** Table loading *)

Section LoaderFacts.
Context {libm : Libm} {units : Units}.
Variable rd : bool.

Lemma extract_double_shorter (s s' : stream) (x : float) :
  extract_double s = Some (x, s') ->
  (List.length s' <= List.length s)%nat /\ s' <> [].
Proof.
  revert s' x. induction s as [|l s IH]; intros s' x H; simpl in H.
  - discriminate.
  - destruct l as [|[|[y|] ts]]; try discriminate.
    + destruct (IH _ _ H) as [Hle Hne]. split; [simpl; lia|exact Hne].
    + inversion H; subst. split; [simpl; lia|discriminate].
Qed.

Lemma extract3_shorter (s s' : stream) (a b c : float) :
  extract3 s = Some (a, b, c, s') ->
  (List.length (ignore_line s') < List.length s)%nat.
Proof.
  unfold extract3. intros H.
  destruct (extract_double s) as [[a0 s1]|] eqn:H1; [|discriminate].
  destruct (extract_double s1) as [[b0 s2]|] eqn:H2; [|discriminate].
  destruct (extract_double s2) as [[c0 s3]|] eqn:H3; [|discriminate].
  inversion H; subst.
  destruct (extract_double_shorter _ _ _ H1) as [L1 _].
  destruct (extract_double_shorter _ _ _ H2) as [L2 _].
  destruct (extract_double_shorter _ _ _ H3) as [L3 N3].
  destruct s' as [|l s']; [contradiction|]. simpl in *. lia.
Qed.

(** The loop never uses up the fuel [read_table] gives it. *)
Lemma read_loop_fuel (n : nat) : forall (s : stream) (fuel fuel' : nat) (st : loader),
  (List.length s <= n)%nat -> (n < fuel)%nat -> (n < fuel')%nat ->
  read_loop fuel rd s st = read_loop fuel' rd s st.
Proof.
  induction n as [|n IH]; intros s fuel fuel' st Hs Hf Hf';
    destruct fuel as [|fuel]; try lia; destruct fuel' as [|fuel']; try lia;
    destruct s as [|l s]; try reflexivity; simpl in Hs; try lia.
  destruct l as [|ts].
  - simpl. apply IH; lia.
  - cbn [read_loop]. destruct rd.
    + destruct (extract_double (TextLine ts :: s)) as [[z s1]|] eqn:H1;
        [|reflexivity].
      destruct (extract3 s1) as [[[[a b] c] s2]|] eqn:H2; [|reflexivity].
      pose proof (extract_double_shorter _ _ _ H1) as [L1 _].
      pose proof (extract3_shorter _ _ _ _ _ H2) as L2.
      simpl in L1. apply IH; lia.
    + destruct (extract3 (TextLine ts :: s)) as [[[[a b] c] s2]|] eqn:H2;
        [|reflexivity].
      pose proof (extract3_shorter _ _ _ _ _ H2) as L2.
      simpl in L2. apply IH; lia.
Qed.

(** On a well-formed file the loop stores the data rows one after the
    other. *)
Lemma read_loop_render (es : list entry) : forall (fuel : nat) (st : loader),
  (List.length es < fuel)%nat ->
  read_loop fuel rd (render rd es) st = fold_left (store rd) (rows_of es) st.
Proof.
  induction es as [|e es IH]; intros fuel st Hf;
    (destruct fuel as [|fuel]; [lia|]).
  - reflexivity.
  - simpl in Hf. destruct e as [|r].
    + simpl. apply IH. lia.
    + change (rows_of (ERow r :: es)) with (r :: rows_of es).
      change (fold_left (store rd) (r :: rows_of es) st)
        with (fold_left (store rd) (rows_of es) (store rd st r)).
      rewrite <- (IH fuel (store rd st r)) by lia.
      unfold store. destruct rd; reflexivity.
Qed.

Lemma fold_store_rates (rows : list row) : forall st : loader,
  ld_tabProtonRate (fold_left (store rd) rows st)
  = ld_tabProtonRate st ++ map (fun r => (row_b r / Mpc)%float) rows
  /\ ld_tabNeutronRate (fold_left (store rd) rows st)
     = ld_tabNeutronRate st ++ map (fun r => (row_c r / Mpc)%float) rows.
Proof.
  induction rows as [|r rows IH]; intros st; simpl.
  - now rewrite !app_nil_r.
  - destruct (IH (store rd st r)) as [HP HN]. rewrite HP, HN.
    unfold store, store_row; simpl. now rewrite <- !app_assoc.
Qed.

(** Once [doReadLorentz] is false the Lorentz grid does not grow. *)
Lemma fold_store_lorentz_stopped (rows : list row) : forall st : loader,
  ld_doReadLorentz st = false ->
  ld_tabLorentz (fold_left (store rd) rows st) = ld_tabLorentz st.
Proof.
  induction rows as [|r rows IH]; intros st Hst; simpl; [reflexivity|].
  rewrite IH.
  - unfold store, store_row; simpl. rewrite Hst.
    now destruct (PrimFloat.ltb (row_a r) (ld_aOld st)).
  - unfold store, store_row; simpl. rewrite Hst.
    now destruct (PrimFloat.ltb (row_a r) (ld_aOld st)).
Qed.

Lemma fold_store_lorentz (rows : list row) : forall st : loader,
  ld_doReadLorentz st = true ->
  ld_tabLorentz (fold_left (store rd) rows st)
  = ld_tabLorentz st
    ++ map (pow (double_of_int 10)) (ascending_run (ld_aOld st) (map row_a rows)).
Proof.
  induction rows as [|r rows IH]; intros st Hst; simpl.
  - now rewrite app_nil_r.
  - destruct (PrimFloat.ltb (row_a r) (ld_aOld st)) eqn:Hlt.
    + rewrite fold_store_lorentz_stopped.
      * unfold store, store_row; simpl. rewrite Hlt. simpl. now rewrite app_nil_r.
      * unfold store, store_row; simpl. now rewrite Hlt.
    + rewrite IH.
      * unfold store, store_row; simpl. rewrite Hlt, Hst. simpl.
        now rewrite <- app_assoc.
      * unfold store, store_row; simpl. now rewrite Hlt.
Qed.

(** A descent cuts the run: what follows it is not part of the run. *)
Lemma ascending_run_cut (pre post : list float) (a1 a2 : float) :
  PrimFloat.ltb a2 a1 = true ->
  forall prev : float,
    ascending_run prev (pre ++ a1 :: a2 :: post) = ascending_run prev (pre ++ [a1]).
Proof.
  intros Hlt. induction pre as [|a pre IH]; intros prev; simpl.
  - now rewrite Hlt.
  - now rewrite IH.
Qed.

Lemma ascending_run_length (l : list float) : forall prev : float,
  (List.length (ascending_run prev l) <= List.length l)%nat.
Proof.
  induction l as [|a l IH]; intros prev; simpl; [lia|].
  destruct (PrimFloat.ltb a prev); simpl; [lia|]. specialize (IH a). lia.
Qed.

Lemma read_table_render (es : list entry) :
  read_table rd (render rd es)
  = fold_left (store rd) (rows_of es)
              (mkLoader (-1)%float (-1)%float true [] [] [] []).
Proof.
  unfold read_table. apply read_loop_render.
  unfold render. rewrite length_map. lia.
Qed.

Lemma rows_of_map_ERow (rows : list row) : rows_of (map ERow rows) = rows.
Proof. induction rows as [|r rows IH]; simpl; [|rewrite IH]; reflexivity. Qed.

End LoaderFacts.

(** C8. Loading a well-formed table file (comment lines and data rows):
    the proton-rate and neutron-rate arrays receive exactly one entry per
    data row, in order; the Lorentz grid receives pow(10, a) for the first
    ascending run of the log10(gamma) column only (the run starts against
    the initial aOld = -1); and once a row's log10(gamma) is smaller than
    that of the row before, nothing read afterwards is appended to the
    grid: the grid is the one of the file cut after the earlier row. *)
Theorem read_table_first_ascending_run
    {libm : Libm} {units : Units} (rd : bool) (es : list entry) :
  let st := read_table rd (render rd es) in
  let rows := rows_of es in
  ld_tabProtonRate st = map (fun r => (row_b r / Mpc)%float) rows
  /\ ld_tabNeutronRate st = map (fun r => (row_c r / Mpc)%float) rows
  /\ List.length (ld_tabProtonRate st) = List.length rows
  /\ List.length (ld_tabNeutronRate st) = List.length rows
  /\ ld_tabLorentz st
     = map (pow (double_of_int 10)) (ascending_run (-1)%float (map row_a rows))
  /\ (forall (pre post : list row) (r1 r2 : row),
        rows = pre ++ r1 :: r2 :: post ->
        PrimFloat.ltb (row_a r2) (row_a r1) = true ->
        ld_tabLorentz st
        = ld_tabLorentz (read_table rd (render rd (map ERow (pre ++ [r1]))))
        /\ (List.length (ld_tabLorentz st) <= List.length pre + 1)%nat).
Proof.
  intros st rows. subst st.
  rewrite read_table_render. fold rows.
  destruct (fold_store_rates rd rows
              (mkLoader (-1)%float (-1)%float true [] [] [] [])) as [HP HN].
  simpl in HP, HN.
  assert (HL : forall l : list row,
            ld_tabLorentz (fold_left (store rd) l
                             (mkLoader (-1)%float (-1)%float true [] [] [] []))
            = map (pow (double_of_int 10))
                  (ascending_run (-1)%float (map row_a l)))
    by (intros l; now rewrite fold_store_lorentz).
  split; [exact HP|]. split; [exact HN|].
  split; [now rewrite HP, length_map|].
  split; [now rewrite HN, length_map|].
  split; [apply HL|].
  intros pre post r1 r2 Hrows Hlt. split.
  - rewrite read_table_render, rows_of_map_ERow, !HL, Hrows.
    rewrite !map_app. simpl map.
    now rewrite (ascending_run_cut _ _ _ _ Hlt).
  - rewrite HL, Hrows, map_app. simpl map.
    rewrite (ascending_run_cut _ _ _ _ Hlt), length_map.
    etransitivity; [apply ascending_run_length|].
    rewrite length_app, length_map. simpl. lia.
Qed.

(** The descent from the last row of the first block (log10(gamma) = 10)
    to the first row of the second (8) ends the grid: the file gives the
    grid of its first three rows. *)
Lemma read_table_first_ascending_run_witness :
  let r (z a b c : float) := mkRow z a b c [] in
  ld_tabLorentz
    (@read_table Sample.libm Sample.units true
       (render true (map ERow [r 0 8 1 2; r 0 9 3 4; r 0 10 5 6;
                               r 1 8 7 8; r 1 9 9 10; r 1 10 11 12]%float)))
  = ld_tabLorentz
      (@read_table Sample.libm Sample.units true
         (render true (map ERow ([r 0 8 1 2; r 0 9 3 4] ++ [r 0 10 5 6])%float)))
  /\ (List.length
        (ld_tabLorentz
           (@read_table Sample.libm Sample.units true
              (render true (map ERow [r 0 8 1 2; r 0 9 3 4; r 0 10 5 6;
                                      r 1 8 7 8; r 1 9 9 10; r 1 10 11 12]%float))))
      <= 2 + 1)%nat.
Proof.
  intros r.
  refine (proj2 (proj2 (proj2 (proj2 (proj2
            (@read_table_first_ascending_run Sample.libm Sample.units true
               (map ERow [r 0 8 1 2; r 0 9 3 4; r 0 10 5 6;
                          r 1 8 7 8; r 1 9 9 10; r 1 10 11 12]%float))))))
            [r 0 8 1 2; r 0 9 3 4]%float [r 1 9 9 10; r 1 10 11 12]%float
            (r 0 10 5 6)%float (r 1 8 7 8)%float _ _);
    vm_compute; reflexivity.
Defined.

(** A file of a redshift-dependent field with two blocks of three rows:
    the grid keeps the three points of the first block, the rate arrays
    all six rows. *)
Example read_table_two_blocks :
  let r (z a b c : float) := ERow (mkRow z a b c []) in
  let st := @read_table Sample.libm Sample.units true
              (render true [EComment;
                            r 0 8 1 2; r 0 9 3 4; r 0 10 5 6;
                            EComment;
                            r 1 8 7 8; r 1 9 9 10; r 1 10 11 12]%float) in
  ld_tabLorentz st = [1e8; 1e9; 1e10]%float
  /\ ld_tabRedshifts st = [0; 1]%float
  /\ List.length (ld_tabProtonRate st) = 6%nat
  /\ List.length (ld_tabNeutronRate st) = 6%nat.
Proof. vm_compute. repeat split. Qed.

(** C9. When the file cannot be opened, [init(filename)] throws and the
    object, its four tables included, is as before the call.  When it can
    be opened, the call returns and the four tables are those read from
    the file starting from empty ones, whatever the object held before. *)
Theorem init_file_open_failure_keeps_tables
    {libm : Libm} {units : Units}
    (fs : filesystem) (m : PhotoPionProduction) (filename : string) :
  (fs filename = None ->
   init_file fs m filename = Throws (could_not_open filename) m)
  /\ (forall s : stream,
        fs filename = Some s ->
        exists m' : PhotoPionProduction,
          init_file fs m filename = Normal m'
          /\ tabLorentz m' = ld_tabLorentz (read_table (doRedshiftDependent m) s)
          /\ tabRedshifts m' = ld_tabRedshifts (read_table (doRedshiftDependent m) s)
          /\ tabProtonRate m' = ld_tabProtonRate (read_table (doRedshiftDependent m) s)
          /\ tabNeutronRate m' = ld_tabNeutronRate (read_table (doRedshiftDependent m) s)
          /\ forall tl tz tp tn : list float,
               init_file fs (setTables m tl tz tp tn) filename = Normal m').
Proof.
  split.
  - intros Hfs. unfold init_file. now rewrite Hfs.
  - intros s Hfs. unfold init_file. rewrite Hfs.
    eexists. split; [reflexivity|]. simpl. repeat split.
Qed.

(** The module loaded with the sample CMB table, and a file system that
    holds no file: the call throws and the object is the same. *)
Lemma init_file_open_failure_keeps_tables_witness :
  @init_file Sample.libm Sample.units (fun _ => None) Sample.cmb "ppp_CMB.txt"
  = Throws "PhotoPionProduction: could not open file ppp_CMB.txt" Sample.cmb.
Proof.
  exact (proj1 (@init_file_open_failure_keeps_tables Sample.libm Sample.units
                  (fun _ => None) Sample.cmb "ppp_CMB.txt") eq_refl).
Defined.

(** * Further properties *)

(** ** What an interaction leaves untouched *)

Lemma grown_refl (c : Candidate) : grown c c.
Proof. repeat split. exists []. now rewrite app_nil_r. Qed.

Lemma grown_trans (c1 c2 c3 : Candidate) :
  grown c1 c2 -> grown c2 c3 -> grown c1 c3.
Proof.
  intros (Hz & Hs & Hn & l & Hl) (Hz' & Hs' & Hn' & l' & Hl').
  split; [congruence|]. split; [congruence|]. split; [congruence|].
  exists (l ++ l'). now rewrite Hl', Hl, app_assoc.
Qed.

Lemma grown_advanced (c c' : Candidate) : grown c c' -> advanced c c'.
Proof. intros (Hz & Hs & Hn & Hl). repeat split; auto. Qed.

Lemma advanced_after_grown (c1 c2 c3 : Candidate) :
  grown c1 c2 -> advanced c2 c3 -> advanced c1 c3.
Proof.
  intros (Hz & Hs & Hn & l & Hl) (Hz' & Hs' & Hn' & l' & Hl').
  split; [congruence|]. split; [congruence|].
  split; [now rewrite <- Hn|].
  exists (l ++ l'). now rewrite Hl', Hl, app_assoc.
Qed.

Lemma grown_setId_setEnergy (c : Candidate) (id : Z) (E : float) :
  grown c (setId (setEnergy c E) id).
Proof. repeat split. exists []. simpl. now rewrite app_nil_r. Qed.

Lemma grown_addSecondary (c : Candidate) (id : Z) (E : float) :
  grown c (addSecondary c id E).
Proof. repeat split. now exists [(id, E)]. Qed.

Section Frame.
Context {units : Units} {pid : ParticleID} {rt : Runtime}.
Variable m : PhotoPionProduction.
Variables sign A Z channel : BinNums.Z.
Variables E EpA : float.

(** Whatever the particle, known to the switch or not, the loop body only
    rewrites the current particle and appends. *)
Lemma translate_particle_grown (p : particle) (c : Candidate) :
  match translate_particle m sign A Z channel E EpA p c with
  | Normal c' => grown c c'
  | Throws _ c' => c' = c
  | Undefined => False
  | Timeout => False
  end.
Proof.
  unfold translate_particle.
  repeat match goal with
         | |- context [if ?b then _ else _] => destruct b
         end;
    try reflexivity;
    first [ apply grown_refl
          | apply grown_setId_setEnergy
          | apply grown_addSecondary
          | eapply grown_trans;
            [apply grown_setId_setEnergy | apply grown_addSecondary] ].
Qed.

Lemma translate_particles_grown (ps : list particle) : forall c : Candidate,
  match translate_particles m sign A Z channel E EpA ps c with
  | Normal c' => grown c c'
  | Throws _ c' => grown c c'
  | Undefined => False
  | Timeout => False
  end.
Proof.
  induction ps as [|p ps IH]; intros c; simpl.
  - apply grown_refl.
  - pose proof (translate_particle_grown p c) as Hp.
    destruct (translate_particle m sign A Z channel E EpA p c) as [c1|msg c1| |].
    + specialize (IH c1).
      destruct (translate_particles m sign A Z channel E EpA ps c1);
        try contradiction; eapply grown_trans; eassumption.
    + subst c1. apply grown_refl.
    + contradiction.
    + contradiction.
Qed.

End Frame.

Section ProcessInvariant.
Context {libm : Libm} {units : Units} {pid : ParticleID} {cmn : Common}
        {rt : Runtime} {kin : Kinematics}.
Variable m : PhotoPionProduction.

Lemma performInteraction_grown (c : Candidate) (ch : Z) (w : World) :
  match performInteraction m c ch w with
  | Normal (c', _) => grown c c'
  | Throws _ (c', _) => grown c c'
  | Undefined => False
  | Timeout => False
  end.
Proof.
  unfold performInteraction.
  destruct (sophiaevent _ _ _ _ _ w) as [ps w'].
  match goal with
  | |- context [translate_particles ?m ?s ?a ?z ?ch ?e ?epa ps c] =>
      pose proof (translate_particles_grown m s a z ch e epa ps c) as H;
      destruct (translate_particles m s a z ch e epa ps c)
  end; exact H.
Qed.

Lemma advanced_limitNextStep (c : Candidate) (x : float) :
  advanced c (limitNextStep c x).
Proof.
  repeat split.
  - unfold limitNextStep, std_min; simpl.
    destruct (PrimFloat.ltb x (getNextStep c)) eqn:Hx; [right|left]; auto.
  - exists []. simpl. now rewrite app_nil_r.
Qed.

Lemma process_loop_advanced (fuel : nat) : forall (step : float) (c : Candidate) (w : World),
  match process_loop fuel m step c w with
  | Normal (c', _) => advanced c c'
  | Throws _ (c', _) => advanced c c'
  | Undefined => True
  | Timeout => True
  end.
Proof.
  induction fuel as [|fuel IH]; intros step c w; simpl; [exact I|].
  destruct (isNucleus (getId (current c))); simpl;
    [|apply grown_advanced, grown_refl].
  destruct (outOfRange m (boostedGamma c)) as [[|]|];
    [apply grown_advanced, grown_refl| |exact I].
  destruct (sample_channels m c w) as [s w1].
  destruct (PrimFloat.ltb step (randDistance s));
    [apply advanced_limitNextStep|].
  destruct (channel s) as [ch|]; [|exact I].
  pose proof (performInteraction_grown c ch w1) as Hint.
  destruct (performInteraction m c ch w1) as [[c1 w2]|msg [c1 w2]| |];
    try contradiction.
  - destruct (fgt (step - randDistance s) 0).
    + specialize (IH (step - randDistance s)%float c1 w2).
      destruct (process_loop fuel m (step - randDistance s) c1 w2)
        as [[c2 w3]|msg [c2 w3]| |]; try exact I;
        eapply advanced_after_grown; eassumption.
    + now apply grown_advanced.
  - now apply grown_advanced.
Qed.

End ProcessInvariant.

(** X1. Whatever the event generator returns (codes unknown to the switch
    included), [performInteraction] leaves the candidate's redshift, step
    and next-step cap as they are and only appends to its secondaries, both
    when it returns and when it throws; it never raises [Undefined] or
    runs out of iterations. *)
Theorem performInteraction_appends_only
    {units : Units} {pid : ParticleID} {rt : Runtime}
    (m : PhotoPionProduction) (c : Candidate) (ch : Z) (w : World) :
  exists (c' : Candidate) (w' : World),
    (performInteraction m c ch w = Normal (c', w')
     \/ exists msg : string, performInteraction m c ch w = Throws msg (c', w'))
    /\ getRedshift c' = getRedshift c
    /\ getCurrentStep c' = getCurrentStep c
    /\ getNextStep c' = getNextStep c
    /\ exists l : list (Z * float), secondaries c' = secondaries c ++ l.
Proof.
  pose proof (performInteraction_grown m c ch w) as H.
  destruct (performInteraction m c ch w) as [[c' w']|msg [c' w']| |];
    try contradiction; exists c', w'.
  - split; [now left|exact H].
  - split; [right; now exists msg|exact H].
Qed.

(** X2. Over all iterations of its loop, [process] never changes the
    candidate's redshift or the step being processed, never removes or
    reorders a secondary (the old sequence is a prefix of the new one), and
    never raises the cap on the next step: the cap is the old one or
    strictly below it.  This holds for a normal return and for the state
    left behind by an exception. *)
Theorem process_never_raises_next_step
    {libm : Libm} {units : Units} {pid : ParticleID} {cmn : Common}
    {rt : Runtime} {kin : Kinematics}
    (m : PhotoPionProduction) (fuel : nat) (c c' : Candidate) (w w' : World) :
  process fuel m c w = Normal (c', w')
  \/ (exists msg : string, process fuel m c w = Throws msg (c', w')) ->
  getRedshift c' = getRedshift c
  /\ getCurrentStep c' = getCurrentStep c
  /\ (getNextStep c' = getNextStep c
      \/ PrimFloat.ltb (getNextStep c') (getNextStep c) = true)
  /\ exists l : list (Z * float), secondaries c' = secondaries c ++ l.
Proof.
  intros H. unfold process in H.
  pose proof (process_loop_advanced m fuel (getCurrentStep c) c w) as Hadv.
  destruct H as [H|[msg H]]; rewrite H in Hadv; exact Hadv.
Qed.

(** ** Events of known particles *)

Section KnownEvents.
Context {units : Units} {pid : ParticleID} {rt : Runtime}.
Variable m : PhotoPionProduction.
Variables sign A Z channel : BinNums.Z.
Variables E EpA : float.

Lemma translate_particle_known (p : particle) (c : Candidate) :
  is_known_code (fst p) = true ->
  translate_particle m sign A Z channel E EpA p c
  = Normal (mkCandidate
              (primary_after sign A Z channel E EpA [p] (current c))
              (getRedshift c) (getCurrentStep c) (getNextStep c)
              (secondaries c ++ appended m sign A p)).
Proof.
  unfold is_known_code, appended. simpl.
  destruct (is_nucleon_code (fst p)) eqn:Hn; simpl; intros Hk.
  - destruct (Z.eqb_spec A 1) as [HA|HA].
    + rewrite (translate_particle_bare m sign A Z channel E EpA p c HA Hn).
      unfold setId, setEnergy; simpl. now rewrite app_nil_r.
    + now rewrite (translate_particle_bound m sign A Z channel E EpA p c HA Hn).
  - now rewrite (translate_particle_other m sign A Z channel E EpA p c Hk).
Qed.

Lemma translate_particles_known (ps : list particle) : forall c : Candidate,
  Forall (fun p => is_known_code (fst p) = true) ps ->
  translate_particles m sign A Z channel E EpA ps c
  = Normal (mkCandidate
              (primary_after sign A Z channel E EpA ps (current c))
              (getRedshift c) (getCurrentStep c) (getNextStep c)
              (secondaries c ++ flat_map (appended m sign A) ps)).
Proof.
  induction ps as [|p ps IH]; intros c Hps.
  - simpl. rewrite app_nil_r. now destruct c.
  - inversion Hps as [|? ? Hp Hps']; subst. simpl translate_particles.
    rewrite (translate_particle_known p c Hp), (IH _ Hps'). simpl.
    now rewrite app_assoc.
Qed.

(** The first code without a case in the switch ends the loop. *)
Lemma translate_particles_unknown (pre post : list particle) (p : particle)
    (c : Candidate) :
  Forall (fun p => is_known_code (fst p) = true) pre ->
  is_known_code (fst p) = false ->
  translate_particles m sign A Z channel E EpA (pre ++ p :: post) c
  = Throws (unexpected_particle (fst p))
           (mkCandidate
              (primary_after sign A Z channel E EpA pre (current c))
              (getRedshift c) (getCurrentStep c) (getNextStep c)
              (secondaries c ++ flat_map (appended m sign A) pre)).
Proof.
  intros Hpre Hp.
  rewrite (translate_particles_app m sign A Z channel E EpA pre (p :: post) c _
             (translate_particles_known pre c Hpre)).
  simpl translate_particles.
  assert (Hp' : translate_particle m sign A Z channel E EpA p
                  (mkCandidate
                     (primary_after sign A Z channel E EpA pre (current c))
                     (getRedshift c) (getCurrentStep c) (getNextStep c)
                     (secondaries c ++ flat_map (appended m sign A) pre))
                = Throws (unexpected_particle (fst p))
                    (mkCandidate
                       (primary_after sign A Z channel E EpA pre (current c))
                       (getRedshift c) (getCurrentStep c) (getNextStep c)
                       (secondaries c ++ flat_map (appended m sign A) pre))).
  { unfold is_known_code, is_nucleon_code, is_other_code in Hp. simpl in Hp.
    rewrite !orb_false_iff in Hp.
    destruct Hp as [[H13 H14] (Ha & Hb & H1 & H2 & H3 & H15 & H16 & H17 & H18 & _)].
    unfold translate_particle.
    now rewrite H13, H14, Ha, Hb, H1, H2, H3, H15, H16, H17, H18. }
  now rewrite Hp'.
Qed.

End KnownEvents.

Section PrimaryFacts.
Context {units : Units} {pid : ParticleID}.
Variables sign A Z channel : BinNums.Z.
Variables E EpA : float.

(** From the first nucleon code on, the current particle of a nucleus is
    the daughter, whatever follows. *)
Lemma primary_after_daughter (ps : list particle) : forall st : ParticleState,
  A <> 1 ->
  primary_after sign A Z channel E EpA ps
    (mkParticleState (sign * nucleusId (A - 1) (Z - channel)) (E - EpA)%float)
  = mkParticleState (sign * nucleusId (A - 1) (Z - channel)) (E - EpA)%float
  /\ (Exists (fun p => is_nucleon_code (fst p) = true) ps ->
      primary_after sign A Z channel E EpA ps st
      = mkParticleState (sign * nucleusId (A - 1) (Z - channel)) (E - EpA)%float).
Proof.
  intros st HA. revert st.
  assert (Hfix : forall l,
            primary_after sign A Z channel E EpA l
              (mkParticleState (sign * nucleusId (A - 1) (Z - channel)) (E - EpA)%float)
            = mkParticleState (sign * nucleusId (A - 1) (Z - channel)) (E - EpA)%float).
  { induction l as [|p l IH]; simpl; [reflexivity|].
    destruct (is_nucleon_code (fst p)); [|exact IH].
    destruct (Z.eqb_spec A 1); [contradiction|exact IH]. }
  intros st. split; [apply Hfix|].
  revert st. induction ps as [|p ps IH]; intros st Hex; simpl.
  - inversion Hex.
  - destruct (is_nucleon_code (fst p)) eqn:Hn.
    + destruct (Z.eqb_spec A 1); [contradiction|apply Hfix].
    + inversion Hex as [? ? Hp|? ? Hps]; subst; [congruence|now apply IH].
Qed.

End PrimaryFacts.

(** X3. An outgoing particle whose type code has no case in the switch
    makes [performInteraction] throw "unexpected particle <code>".  The
    particles before it have already been applied to the candidate (their
    secondaries are appended and the current particle rewritten), the ones
    after it are dropped, and the generator has been called. *)
Theorem performInteraction_unexpected_particle
    {units : Units} {pid : ParticleID} {rt : Runtime}
    (m : PhotoPionProduction) (c : Candidate) (ch : Z) (w w' : World)
    (pre post : list particle) (pType : Z) (e : float) :
  let id := getId (current c) in
  let A := massNumber id in
  let E := getEnergy (current c) in
  generated m c ch w = (pre ++ (pType, e) :: post, w') ->
  Forall (fun p => is_known_code (fst p) = true) pre ->
  is_known_code pType = false ->
  performInteraction m c ch w
  = Throws (unexpected_particle pType)
      (mkCandidate
         (primary_after (sign_of id) A (chargeNumber id) ch E
                        (E / double_of_int A)%float pre (current c))
         (getRedshift c) (getCurrentStep c) (getNextStep c)
         (secondaries c ++ flat_map (appended m (sign_of id) A) pre),
       w').
Proof.
  intros id A E Hgen Hpre Hp.
  unfold performInteraction. unfold generated in Hgen.
  fold id A E. fold id A E in Hgen. rewrite Hgen. fold (sign_of id).
  now rewrite (translate_particles_unknown m (sign_of id) A (chargeNumber id) ch
                 E _ pre post (pType, e) c Hpre Hp).
Qed.

(** X4. For a nucleus (A > 1) and an event of known codes that holds any
    number n >= 1 of nucleon codes, the candidate becomes the daughter of
    mass A - 1 with energy E - E/A exactly once, while each of the n
    nucleon codes appends its own nucleon secondary: the secondaries
    appended are, in generator order, one per nucleon code and the recorded
    non-nucleons. *)
Theorem performInteraction_several_nucleons
    {units : Units} {pid : ParticleID} {rt : Runtime}
    (m : PhotoPionProduction) (c : Candidate) (ch : Z) (w w' : World)
    (ps : list particle) :
  let id := getId (current c) in
  let A := massNumber id in
  let E := getEnergy (current c) in
  1 < A ->
  generated m c ch w = (ps, w') ->
  Forall (fun p => is_known_code (fst p) = true) ps ->
  Exists (fun p => is_nucleon_code (fst p) = true) ps ->
  performInteraction m c ch w
  = Normal
      (mkCandidate
         (mkParticleState (sign_of id * nucleusId (A - 1) (chargeNumber id - ch))
                          (E - E / double_of_int A)%float)
         (getRedshift c) (getCurrentStep c) (getNextStep c)
         (secondaries c
          ++ flat_map (fun p => if is_nucleon_code (fst p)
                                then [(sign_of id * nucleusId 1 (14 - fst p),
                                       (snd p * GeV)%float)]
                                else recorded m (sign_of id) p) ps),
       w').
Proof.
  intros id A E HA Hgen Hps Hex.
  unfold performInteraction. unfold generated in Hgen.
  fold id A E. fold id A E in Hgen. rewrite Hgen. fold (sign_of id).
  rewrite (translate_particles_known m (sign_of id) A (chargeNumber id) ch E _
             ps c Hps).
  rewrite (proj2 (primary_after_daughter (sign_of id) A (chargeNumber id) ch E _
                    ps (current c) ltac:(lia)) Hex).
  do 4 f_equal. apply flat_map_ext. intros p. unfold appended.
  destruct (is_nucleon_code (fst p)); [|reflexivity].
  destruct (Z.eqb_spec A 1); [lia|reflexivity].
Qed.
(** ** Recording toggles and charge symmetry *)

Section AppendedFacts.
Context {units : Units} {pid : ParticleID} {rt : Runtime}.
Variable m : PhotoPionProduction.

Lemma recorded_recordNothing (sign : Z) (p : particle) :
  recorded (recordNothing m) sign p = [].
Proof.
  unfold recorded, recordNothing. simpl.
  repeat match goal with
         | |- context [if ?b then _ else _] => destruct b
         end; reflexivity.
Qed.

Lemma appended_recordNothing (sign A : Z) (p : particle) :
  appended (recordNothing m) sign A p
  = if is_nucleon_code (fst p) then appended m sign A p else [].
Proof.
  unfold appended. destruct (is_nucleon_code (fst p)); [reflexivity|].
  apply recorded_recordNothing.
Qed.

(** Every appended identity but the photon's changes sign with the sign of
    the primary. *)
Lemma appended_opposite_sign (A : Z) (p : particle) :
  appended m (-1) A p
  = if fst p =? 1 then appended m 1 A p else map conjugate (appended m 1 A p).
Proof.
  destruct p as [pType e]. unfold appended, recorded, is_nucleon_code, conjugate.
  simpl fst. simpl snd.
  repeat match goal with
         | |- context [Z.eqb ?x ?y] => destruct (Z.eqb_spec x y)
         end; cbn [orb]; try lia;
    repeat match goal with
           | |- context [if ?b then _ else _] => destruct b
           end; cbn [map fst snd]; try reflexivity;
    repeat f_equal; lia.
Qed.

Lemma primary_after_opposite_sign (A Z ch : BinNums.Z) (E EpA : float)
    (ps : list particle) : forall st st' : ParticleState,
  getId st' = - getId st ->
  getEnergy st' = getEnergy st ->
  getId (primary_after (-1) A Z ch E EpA ps st')
  = - getId (primary_after 1 A Z ch E EpA ps st)
  /\ getEnergy (primary_after (-1) A Z ch E EpA ps st')
     = getEnergy (primary_after 1 A Z ch E EpA ps st).
Proof.
  induction ps as [|p ps IH]; intros st st' Hid HE; cbn [primary_after];
    [now split|].
  apply IH;
    destruct (is_nucleon_code (fst p)); try assumption;
    destruct (A =? 1); cbn [getId getEnergy]; try reflexivity; lia.
Qed.

End AppendedFacts.

(** X5. The three recording toggles only filter the secondaries.  On an
    event of known codes the module with all of them switched off leaves
    the same current particle as the module with any setting, and appends
    the outgoing nucleons only (none for a bare nucleon). *)
Theorem toggles_only_filter_secondaries
    {units : Units} {pid : ParticleID} {rt : Runtime}
    (m : PhotoPionProduction) (c : Candidate) (ch : Z) (w w' : World)
    (ps : list particle) :
  let id := getId (current c) in
  let A := massNumber id in
  generated m c ch w = (ps, w') ->
  Forall (fun p => is_known_code (fst p) = true) ps ->
  exists st : ParticleState,
    performInteraction m c ch w
    = Normal (mkCandidate st (getRedshift c) (getCurrentStep c) (getNextStep c)
                (secondaries c ++ flat_map (appended m (sign_of id) A) ps),
              w')
    /\ performInteraction (recordNothing m) c ch w
       = Normal (mkCandidate st (getRedshift c) (getCurrentStep c) (getNextStep c)
                   (secondaries c
                    ++ flat_map (fun p =>
                         if is_nucleon_code (fst p)
                         then if A =? 1 then []
                              else [(sign_of id * nucleusId 1 (14 - fst p),
                                     (snd p * GeV)%float)]
                         else []) ps),
                 w').
Proof.
  intros id A Hgen Hps.
  exists (primary_after (sign_of id) A (chargeNumber id) ch (getEnergy (current c))
            (getEnergy (current c) / double_of_int A)%float ps (current c)).
  unfold performInteraction. unfold generated in Hgen. simpl photonField.
  fold id A. fold id A in Hgen. rewrite Hgen. fold (sign_of id).
  rewrite !translate_particles_known by exact Hps.
  split; [reflexivity|].
  do 4 f_equal. apply flat_map_ext. intros p.
  rewrite appended_recordNothing. unfold appended.
  now destruct (is_nucleon_code (fst p)).
Qed.

(** The outcome on an event of known codes, in closed form. *)
Lemma performInteraction_known
    {units : Units} {pid : ParticleID} {rt : Runtime}
    (m : PhotoPionProduction) (c : Candidate) (ch : Z) (w w' : World)
    (ps : list particle) :
  generated m c ch w = (ps, w') ->
  Forall (fun p => is_known_code (fst p) = true) ps ->
  performInteraction m c ch w
  = Normal
      (mkCandidate
         (primary_after (sign_of (getId (current c)))
            (massNumber (getId (current c))) (chargeNumber (getId (current c)))
            ch (getEnergy (current c))
            (getEnergy (current c)
             / double_of_int (massNumber (getId (current c))))%float
            ps (current c))
         (getRedshift c) (getCurrentStep c) (getNextStep c)
         (secondaries c
          ++ flat_map (appended m (sign_of (getId (current c)))
                                (massNumber (getId (current c)))) ps),
       w').
Proof.
  intros Hgen Hps. unfold performInteraction. unfold generated in Hgen.
  rewrite Hgen. fold (sign_of (getId (current c))).
  now rewrite translate_particles_known by exact Hps.
Qed.

(** X6. Charge symmetry.  For a matter primary (id > 0) and its
    antiparticle (-id, same mass and charge number), the same event of
    known codes gives the same energy, the opposite current identity and
    the same secondaries with every identity negated, except the photon
    (code 1, recorded as 22 for both). *)
Theorem performInteraction_charge_symmetry
    {units : Units} {pid : ParticleID} {rt : Runtime}
    (m : PhotoPionProduction) (c : Candidate) (ch : Z) (w w' : World)
    (ps : list particle) :
  let id := getId (current c) in
  let A := massNumber id in
  0 < id ->
  massNumber (- id) = massNumber id ->
  chargeNumber (- id) = chargeNumber id ->
  generated m c ch w = (ps, w') ->
  Forall (fun p => is_known_code (fst p) = true) ps ->
  exists c1 c2 : Candidate,
    performInteraction m c ch w = Normal (c1, w')
    /\ performInteraction m (setId c (- id)) ch w = Normal (c2, w')
    /\ getId (current c2) = - getId (current c1)
    /\ getEnergy (current c2) = getEnergy (current c1)
    /\ secondaries c1 = secondaries c ++ flat_map (appended m 1 A) ps
    /\ secondaries c2
       = secondaries c
         ++ flat_map (fun p => if fst p =? 1 then appended m 1 A p
                               else map conjugate (appended m 1 A p)) ps.
Proof.
  intros id A Hpos HA HZ Hgen Hps.
  assert (Hs : sign_of id = 1)
    by (unfold sign_of; destruct (Z.gtb_spec id 0); [reflexivity|lia]).
  assert (Hs' : sign_of (- id) = -1)
    by (unfold sign_of; destruct (Z.gtb_spec (- id) 0); [lia|reflexivity]).
  assert (Hgen' : generated m (setId c (- id)) ch w = (ps, w')).
  { unfold generated in *. cbn [setId current getId getEnergy getRedshift].
    fold id. rewrite HA. exact Hgen. }
  rewrite (performInteraction_known m c ch w w' ps Hgen Hps).
  rewrite (performInteraction_known m (setId c (- id)) ch w w' ps Hgen' Hps).
  cbn [setId current getId getEnergy getRedshift getCurrentStep getNextStep
       secondaries].
  fold id. rewrite HA, HZ, Hs, Hs'. fold A.
  do 2 eexists. split; [reflexivity|]. split; [reflexivity|].
  cbn [current secondaries].
  destruct (primary_after_opposite_sign A (chargeNumber id) ch
              (getEnergy (current c))
              (getEnergy (current c) / double_of_int A)%float ps
              (current c) (mkParticleState (- id) (getEnergy (current c)))
              eq_refl eq_refl) as [Hid HE].
  split; [exact Hid|]. split; [exact HE|]. split; [reflexivity|].
  f_equal. apply flat_map_ext. intros p. apply appended_opposite_sign.
Qed.

(** ** The loop of the step integrator *)

Lemma ltb_irrefl (x : float) : PrimFloat.ltb x x = false.
Proof.
  rewrite FloatAxioms.ltb_spec. unfold SFltb, SFcompare.
  destruct (Prim2SF x) as [[|]|[|]| |[|] mx ex]; try reflexivity;
    rewrite Z.compare_refl, Pos.compare_cont_refl; reflexivity.
Qed.

Lemma ltb_nan_l (x : float) : PrimFloat.ltb nan x = false.
Proof.
  rewrite FloatAxioms.ltb_spec.
  destruct (Prim2SF x) as [[|]|[|]| |[|] mx ex]; reflexivity.
Qed.

Lemma ltb_nan_r (x : float) : PrimFloat.ltb x nan = false.
Proof.
  rewrite FloatAxioms.ltb_spec.
  destruct (Prim2SF x) as [[|]|[|]| |[|] mx ex]; reflexivity.
Qed.

Section LoopFacts.
Context {libm : Libm} {units : Units} {pid : ParticleID} {cmn : Common}
        {rt : Runtime} {kin : Kinematics}.
Variable m : PhotoPionProduction.

Lemma sample_channels_channel (c : Candidate) (w : World) :
  channel (fst (sample_channels m c w)) = winner m c w.
Proof.
  unfold sample_channels, winner, hasProtons, hasNeutrons,
         protonRate, neutronRate.
  destruct (chargeNumber (getId (current c)) >? 0);
    destruct (massNumber (getId (current c)) - chargeNumber (getId (current c)) >? 0);
    sample_cases.
Qed.

(** One iteration in which the interaction takes place. *)
Lemma process_loop_interact (fuel : nat) (step : float) (c : Candidate)
    (w : World) (ch : Z) :
  isNucleus (getId (current c)) = true ->
  outOfRange m (boostedGamma c) = Some false ->
  PrimFloat.ltb step (minDistance m c w) = false ->
  winner m c w = Some ch ->
  process_loop (S fuel) m step c w
  = match performInteraction m c ch (drawn c w) with
    | Normal (c1, w2) =>
        if fgt (step - minDistance m c w) 0
        then process_loop fuel m (step - minDistance m c w) c1 w2
        else Normal (c1, w2)
    | stop => stop
    end.
Proof.
  intros Hnuc Hrange Hstep Hch.
  rewrite <- (sample_channels_randDistance m c w) in Hstep |- *.
  rewrite <- (sample_channels_channel c w) in Hch.
  rewrite <- (sample_channels_world m c w).
  cbn [process_loop]. rewrite Hnuc, Hrange. cbn [negb].
  destruct (sample_channels m c w) as [s w1]. cbn [fst snd] in *.
  now rewrite Hstep, Hch.
Qed.

End LoopFacts.

(** X7. Which channel interacts.  With both channels available the neutron
    channel is taken only when its sampled distance is strictly smaller; a
    tie, or a neutron distance that is NaN, leaves the proton channel.  A
    nucleus with protons always has a channel.  Without protons the local
    [channel] is assigned only when the neutron distance is strictly below
    the largest double; otherwise it holds no value. *)
Theorem channel_selection
    {libm : Libm} {units : Units} {pid : ParticleID} {cmn : Common}
    {rt : Runtime} {kin : Kinematics}
    (m : PhotoPionProduction) (c : Candidate) (w : World) :
  let ch := channel (fst (sample_channels m c w)) in
  let dp := (- log (fst (rand w)) / protonRate m c)%float in
  (hasProtons c = true -> hasNeutrons c = true ->
   let dn := (- log (fst (rand (snd (rand w)))) / neutronRate m c)%float in
   ch = (if PrimFloat.ltb dn dp then Some 0 else Some 1)
   /\ (dn = dp -> ch = Some 1)
   /\ (dn = nan -> ch = Some 1))
  /\ (hasProtons c = true -> hasNeutrons c = false -> ch = Some 1)
  /\ (hasProtons c = false -> hasNeutrons c = true ->
      let dn := (- log (fst (rand w)) / neutronRate m c)%float in
      ch = if PrimFloat.ltb dn DBL_MAX then Some 0 else None)
  /\ (hasProtons c = false -> hasNeutrons c = false -> ch = None).
Proof.
  intros ch dp. subst ch. rewrite sample_channels_channel. unfold winner.
  split; [|split; [|split]]; intros HP HN; rewrite HP, HN; try reflexivity.
  cbn zeta. fold dp. split; [reflexivity|]. split.
  - intros Heq. rewrite Heq, ltb_irrefl. reflexivity.
  - intros Heq. rewrite Heq, ltb_nan_l. reflexivity.
Qed.

(** X8. A nucleus without protons whose neutron distance is not below the
    largest double (a zero neutron rate gives +infinity), processed with a
    step that is not below the largest double either, makes [process] read
    the local [channel] before any value was assigned to it. *)
Theorem process_reads_unassigned_channel
    {libm : Libm} {units : Units} {pid : ParticleID} {cmn : Common}
    {rt : Runtime} {kin : Kinematics}
    (m : PhotoPionProduction) (fuel : nat) (step : float) (c : Candidate)
    (w : World) :
  isNucleus (getId (current c)) = true ->
  outOfRange m (boostedGamma c) = Some false ->
  hasProtons c = false ->
  (hasNeutrons c = true ->
   PrimFloat.ltb (- log (fst (rand w)) / neutronRate m c) DBL_MAX = false) ->
  PrimFloat.ltb step DBL_MAX = false ->
  process_loop (S fuel) m step c w = Undefined.
Proof.
  intros Hnuc Hrange HP HN Hstep.
  assert (Hd : minDistance m c w = DBL_MAX).
  { unfold minDistance. rewrite HP.
    destruct (hasNeutrons c); [|reflexivity]. cbn zeta. now rewrite HN. }
  assert (Hc : winner m c w = None).
  { unfold winner. rewrite HP.
    destruct (hasNeutrons c); [|reflexivity]. cbn zeta. now rewrite HN. }
  rewrite <- sample_channels_randDistance in Hd.
  rewrite <- sample_channels_channel in Hc.
  cbn [process_loop]. rewrite Hnuc, Hrange. cbn [negb].
  destruct (sample_channels m c w) as [s w1]. cbn [fst] in *.
  now rewrite Hd, Hstep, Hc.
Qed.

(** X9. An interaction followed by a deferral.  When the sampled distance
    is not above the step, the interaction of the winning channel is
    performed on the world left by the draws; the loop then runs again on
    the changed candidate with the remaining step, and when that is below
    the newly sampled distance the next step is capped with the rates of
    the changed candidate, not of the original one. *)
Theorem process_interacts_then_defers
    {libm : Libm} {units : Units} {pid : ParticleID} {cmn : Common}
    {rt : Runtime} {kin : Kinematics}
    (m : PhotoPionProduction) (fuel : nat) (step : float)
    (c c1 : Candidate) (w w2 : World) (ch : Z) :
  let rest := (step - minDistance m c w)%float in
  isNucleus (getId (current c)) = true ->
  outOfRange m (boostedGamma c) = Some false ->
  PrimFloat.ltb step (minDistance m c w) = false ->
  winner m c w = Some ch ->
  performInteraction m c ch (drawn c w) = Normal (c1, w2) ->
  fgt rest 0 = true ->
  isNucleus (getId (current c1)) = true ->
  outOfRange m (boostedGamma c1) = Some false ->
  PrimFloat.ltb rest (minDistance m c1 w2) = true ->
  process_loop (S (S fuel)) m step c w
  = Normal (limitNextStep c1 (limit m / summedRate m c1)%float, drawn c1 w2).
Proof.
  intros rest Hnuc Hrange Hstep Hch Hint Hrest Hnuc1 Hrange1 Hstep1.
  rewrite (process_loop_interact m (S fuel) step c w ch Hnuc Hrange Hstep Hch).
  rewrite Hint. fold rest. rewrite Hrest.
  rewrite <- sample_channels_randDistance in Hstep1.
  rewrite (process_loop_defer m fuel rest c1 w2 Hnuc1 Hrange1 Hstep1).
  now rewrite sample_channels_totalRate, sample_channels_world.
Qed.

(** X10. When an interaction leaves no remaining step (the sampled distance
    is not above the step and step - distance is not positive), [process]
    returns right after the interaction: the next step is not limited and
    no further variate is drawn. *)
Theorem process_interaction_uses_up_step
    {libm : Libm} {units : Units} {pid : ParticleID} {cmn : Common}
    {rt : Runtime} {kin : Kinematics}
    (m : PhotoPionProduction) (fuel : nat) (step : float)
    (c c1 : Candidate) (w w2 : World) (ch : Z) :
  isNucleus (getId (current c)) = true ->
  outOfRange m (boostedGamma c) = Some false ->
  PrimFloat.ltb step (minDistance m c w) = false ->
  winner m c w = Some ch ->
  performInteraction m c ch (drawn c w) = Normal (c1, w2) ->
  fgt (step - minDistance m c w) 0 = false ->
  process_loop (S fuel) m step c w = Normal (c1, w2)
  /\ getNextStep c1 = getNextStep c.
Proof.
  intros Hnuc Hrange Hstep Hch Hint Hrest.
  rewrite (process_loop_interact m fuel step c w ch Hnuc Hrange Hstep Hch).
  rewrite Hint, Hrest. split; [reflexivity|].
  pose proof (performInteraction_grown m c ch (drawn c w)) as Hg.
  rewrite Hint in Hg. apply Hg.
Qed.

(** X11. [process] catches nothing: an exception of [performInteraction]
    leaves [process] with the same message and the state at the throw, in
    whichever iteration it is raised first; the next step is then not
    limited. *)
Theorem process_propagates_exception
    {libm : Libm} {units : Units} {pid : ParticleID} {cmn : Common}
    {rt : Runtime} {kin : Kinematics}
    (m : PhotoPionProduction) (fuel : nat) (step : float)
    (c c1 : Candidate) (w w2 : World) (ch : Z) (msg : string) :
  isNucleus (getId (current c)) = true ->
  outOfRange m (boostedGamma c) = Some false ->
  PrimFloat.ltb step (minDistance m c w) = false ->
  winner m c w = Some ch ->
  performInteraction m c ch (drawn c w) = Throws msg (c1, w2) ->
  process_loop (S fuel) m step c w = Throws msg (c1, w2)
  /\ getNextStep c1 = getNextStep c.
Proof.
  intros Hnuc Hrange Hstep Hch Hint.
  rewrite (process_loop_interact m fuel step c w ch Hnuc Hrange Hstep Hch).
  rewrite Hint. split; [reflexivity|].
  pose proof (performInteraction_grown m c ch (drawn c w)) as Hg.
  rewrite Hint in Hg. apply Hg.
Qed.

(** X12. With a redshift-dependent table the rate of each channel is
    interpolate2d(z, gamma * (1 + z), tabRedshifts, tabLorentz, table)
    times the nucleus modification; the factor pow(1 + z, 2) *
    photonFieldScaling is computed but not applied.  This unscaled rate is
    the divisor of the sampled distance -log(u) / rate, the summand of
    totalRate, and the rate behind the cap limit / totalRate that
    [process] sets when it defers. *)
Theorem redshift_dependent_rate
    {libm : Libm} {units : Units} {pid : ParticleID} {cmn : Common}
    {rt : Runtime} {kin : Kinematics}
    (m : PhotoPionProduction) (c : Candidate) (w : World) :
  let z := getRedshift c in
  let g := ((1 + z) * lorentzFactor (current c))%float in
  let A := massNumber (getId (current c)) in
  let Z := chargeNumber (getId (current c)) in
  let rp := (interpolate2d z g (tabRedshifts m) (tabLorentz m) (tabProtonRate m)
             * nucleiModification A Z)%float in
  let rn := (interpolate2d z g (tabRedshifts m) (tabLorentz m) (tabNeutronRate m)
             * nucleiModification A (A - Z))%float in
  let t := if Z >? 0 then (0 + rp)%float else 0%float in
  let total := if A - Z >? 0 then (t + rn)%float else t in
  let d := if Z >? 0 then (- log (fst (rand w)) / rp)%float else DBL_MAX in
  let w1 := if Z >? 0 then snd (rand w) else w in
  let dmin := if A - Z >? 0
              then let dn := (- log (fst (rand w1)) / rn)%float in
                   if PrimFloat.ltb dn d then dn else d
              else d in
  doRedshiftDependent m = true ->
  totalRate (fst (sample_channels m c w)) = total
  /\ randDistance (fst (sample_channels m c w)) = dmin
  /\ (forall (fuel : nat) (step : float),
        isNucleus (getId (current c)) = true ->
        outOfRange m g = Some false ->
        PrimFloat.ltb step dmin = true ->
        process_loop (S fuel) m step c w
        = Normal (limitNextStep c (limit m / total)%float, drawn c w)).
Proof.
  intros z g A Z rp rn t total d w1 dmin Hrd.
  assert (Ht : totalRate (fst (sample_channels m c w)) = total).
  { rewrite sample_channels_totalRate.
    unfold summedRate, hasProtons, hasNeutrons, protonRate, neutronRate,
           channelRate, boostedGamma, getLorentzFactor.
    rewrite Hrd. reflexivity. }
  assert (Hd : randDistance (fst (sample_channels m c w)) = dmin).
  { rewrite sample_channels_randDistance.
    unfold minDistance, hasProtons, hasNeutrons, protonRate, neutronRate,
           channelRate, boostedGamma, getLorentzFactor.
    rewrite Hrd. reflexivity. }
  split; [exact Ht|]. split; [exact Hd|].
  intros fuel step Hnuc Hrange Hstep. rewrite <- Hd in Hstep.
  rewrite (process_loop_defer m fuel step c w Hnuc Hrange Hstep).
  now rewrite Ht, sample_channels_world.
Qed.

(** X13. The tabulated range is a closed interval: a boosted Lorentz factor
    equal to the first or to the last grid point is in range, so a nucleus
    exactly at a bound is sampled like any other; and since both tests are
    comparisons, a NaN Lorentz factor is not rejected either. *)
Theorem range_is_closed
    {libm : Libm} {units : Units} {pid : ParticleID} {cmn : Common}
    {rt : Runtime} {kin : Kinematics}
    (m : PhotoPionProduction) (lo hi : float) :
  front (tabLorentz m) = Some lo ->
  back (tabLorentz m) = Some hi ->
  PrimFloat.ltb hi lo = false ->
  outOfRange m lo = Some false
  /\ outOfRange m hi = Some false
  /\ outOfRange m nan = Some false
  /\ (forall (fuel : nat) (step : float) (c : Candidate) (w : World),
        isNucleus (getId (current c)) = true ->
        boostedGamma c = lo \/ boostedGamma c = hi \/ boostedGamma c = nan ->
        PrimFloat.ltb step (minDistance m c w) = true ->
        process_loop (S fuel) m step c w
        = Normal (limitNextStep c (limit m / summedRate m c)%float, drawn c w)).
Proof.
  intros Hlo Hhi Hord.
  assert (H1 : outOfRange m lo = Some false)
    by (unfold outOfRange, fgt; now rewrite Hlo, Hhi, ltb_irrefl, Hord).
  assert (H2 : outOfRange m hi = Some false)
    by (unfold outOfRange, fgt; now rewrite Hlo, Hhi, ltb_irrefl, Hord).
  assert (H3 : outOfRange m nan = Some false)
    by (unfold outOfRange, fgt; now rewrite Hlo, Hhi, ltb_nan_l, ltb_nan_r).
  split; [exact H1|]. split; [exact H2|]. split; [exact H3|].
  intros fuel step c w Hnuc Hg Hstep.
  assert (Hrange : outOfRange m (boostedGamma c) = Some false)
    by (destruct Hg as [-> | [-> | ->]]; assumption).
  rewrite <- (sample_channels_randDistance m c w) in Hstep.
  rewrite (process_loop_defer m fuel step c w Hnuc Hrange Hstep).
  now rewrite sample_channels_totalRate, sample_channels_world.
Qed.

(** ** More on table loading *)

Section LoaderMore.
Context {libm : Libm} {units : Units}.
Variable rd : bool.

Lemma read_loop_render_app (tail : stream) (es : list entry) :
  forall (k : nat) (st : loader),
    read_loop (List.length es + k) rd (render rd es ++ tail) st
    = read_loop k rd tail (fold_left (store rd) (rows_of es) st).
Proof.
  induction es as [|e es IH]; intros k st; [reflexivity|].
  destruct e as [|r].
  - cbn [List.length Nat.add render map app render_entry read_loop rows_of
         flat_map fold_left].
    apply IH.
  - change (rows_of (ERow r :: es)) with (r :: rows_of es).
    change (fold_left (store rd) (r :: rows_of es) st)
      with (fold_left (store rd) (rows_of es) (store rd st r)).
    rewrite <- (IH k (store rd st r)).
    unfold store. destruct rd; reflexivity.
Qed.

Lemma read_table_render_app (tail : stream) (es : list entry) :
  read_table rd (render rd es ++ tail)
  = read_loop (S (List.length tail)) rd tail (read_table rd (render rd es)).
Proof.
  rewrite read_table_render. unfold read_table.
  replace (S (List.length (render rd es ++ tail)))
    with (List.length es + S (List.length tail))%nat
    by (rewrite length_app; unfold render; rewrite length_map; lia).
  apply read_loop_render_app.
Qed.

Lemma rows_of_app (es1 es2 : list entry) :
  rows_of (es1 ++ es2) = rows_of es1 ++ rows_of es2.
Proof. unfold rows_of. apply flat_map_app. Qed.

Lemma extract_double_blanks (n : nat) (s : stream) :
  extract_double (repeat (TextLine []) n ++ s) = extract_double s.
Proof. induction n as [|n IH]; [reflexivity|exact IH]. Qed.

(** Blank lines in front of a data row go with the row. *)
Lemma read_loop_blanks_row (n k : nat) (r : row) (s : stream) (st : loader) :
  read_loop (S k) rd (repeat (TextLine []) n ++ render_entry rd (ERow r) :: s) st
  = read_loop k rd s (store rd st r).
Proof.
  destruct n as [|n].
  - unfold store. destruct rd; reflexivity.
  - change (repeat (TextLine []) (S n) ++ render_entry rd (ERow r) :: s)
      with (TextLine [] :: (repeat (TextLine []) n ++ render_entry rd (ERow r) :: s)).
    cbn [read_loop]. unfold extract3.
    change (extract_double
              (TextLine [] :: repeat (TextLine []) n ++ render_entry rd (ERow r) :: s))
      with (extract_double
              (repeat (TextLine []) n ++ render_entry rd (ERow r) :: s)).
    rewrite extract_double_blanks. unfold store. destruct rd; reflexivity.
Qed.

Lemma fold_store_redshifts (rows : list row) : forall st : loader,
  ld_tabRedshifts (fold_left (store rd) rows st)
  = if rd then ld_tabRedshifts st ++ changes (ld_zOld st) (map row_z rows)
    else ld_tabRedshifts st.
Proof.
  induction rows as [|r rows IH]; intros st; simpl.
  - destruct rd; [now rewrite app_nil_r|reflexivity].
  - rewrite IH. unfold store, store_row. destruct rd; simpl; [|reflexivity].
    destruct (fne (row_z r) (ld_zOld st)); [now rewrite <- app_assoc|reflexivity].
Qed.

Lemma ascending_run_all (l : list float) : forall prev : float,
  List.length (ascending_run prev l) = List.length l
  <-> never_descends prev l = true.
Proof.
  induction l as [|a l IH]; intros prev; simpl; [tauto|].
  destruct (PrimFloat.ltb a prev); simpl.
  - split; discriminate.
  - rewrite <- IH. split; lia.
Qed.

Lemma ascending_run_whole (l : list float) : forall prev : float,
  never_descends prev l = true -> ascending_run prev l = l.
Proof.
  induction l as [|a l IH]; intros prev; simpl; [reflexivity|].
  destruct (PrimFloat.ltb a prev); simpl; [discriminate|].
  intros H. f_equal. now apply IH.
Qed.

Lemma store_row_aligned (z : option float) (a b c : float) (st : loader) :
  aligned st -> aligned (store_row rd z a b c st).
Proof.
  intros (HPN & HL & HZ). unfold aligned, store_row; simpl.
  rewrite !length_app; simpl.
  repeat split.
  - lia.
  - destruct (if PrimFloat.ltb a (ld_aOld st) then false else ld_doReadLorentz st);
      rewrite ?length_app; simpl; lia.
  - destruct z as [zv|]; [|lia].
    destruct (rd && fne zv (ld_zOld st)); rewrite ?length_app; simpl; lia.
Qed.

Lemma read_loop_aligned (fuel : nat) : forall (s : stream) (st : loader),
  aligned st -> aligned (read_loop fuel rd s st).
Proof.
  induction fuel as [|fuel IH]; intros s st Hst; [exact Hst|].
  destruct s as [|[|ts] s]; cbn [read_loop]; [exact Hst|now apply IH|].
  destruct rd eqn:Hrd.
  - destruct (extract_double (TextLine ts :: s)) as [[z s1]|]; [|exact Hst].
    destruct (extract3 s1) as [[[[a b] c] s2]|]; [|exact Hst].
    apply IH. rewrite <- Hrd. now apply store_row_aligned.
  - destruct (extract3 (TextLine ts :: s)) as [[[[a b] c] s2]|]; [|exact Hst].
    apply IH. rewrite <- Hrd. now apply store_row_aligned.
Qed.

End LoaderMore.

(** X14. The redshift grid.  For a redshift-independent field it stays
    empty.  For a redshift-dependent field it receives the z of every data
    row whose z differs from the z of the row before (the first row is
    compared with the initial zOld = -1), so a z that comes back after
    another block is stored again. *)
Theorem read_table_redshift_grid
    {libm : Libm} {units : Units} (es : list entry) :
  ld_tabRedshifts (read_table false (render false es)) = []
  /\ ld_tabRedshifts (read_table true (render true es))
     = changes (-1)%float (map row_z (rows_of es)).
Proof.
  rewrite !read_table_render, !fold_store_redshifts. split; reflexivity.
Qed.

(** X15. Reading stops silently at the first line that is neither a
    comment nor a data row: a line that starts with something that is not
    a number, a blank line followed by a comment line, or a last line with
    too few numbers.  Nothing is raised; the tables are those of the lines
    before, and every line after is ignored. *)
Theorem read_table_stops_at_malformed_line
    {libm : Libm} {units : Units} (rd : bool) (es : list entry) :
  (forall (ts : list token) (rest : stream),
     read_table rd (render rd es ++ TextLine (Junk :: ts) :: rest)
     = read_table rd (render rd es))
  /\ (forall rest : stream,
     read_table rd (render rd es ++ TextLine [] :: CommentLine :: rest)
     = read_table rd (render rd es))
  /\ (forall xs : list float,
     (List.length xs < columns rd)%nat ->
     read_table rd (render rd es ++ [TextLine (map Num xs)])
     = read_table rd (render rd es)).
Proof.
  split; [|split].
  - intros ts rest. rewrite read_table_render_app.
    cbn [read_loop]. unfold extract3. now destruct rd.
  - intros rest. rewrite read_table_render_app.
    cbn [read_loop]. unfold extract3. now destruct rd.
  - intros xs Hxs. rewrite read_table_render_app.
    cbn [read_loop List.length]. unfold extract3, columns in *.
    destruct rd; destruct xs as [|a [|b [|c [|d xs]]]];
      simpl in Hxs; try lia; reflexivity.
Qed.

(** X16. Blank lines in front of a data row change nothing: the extraction
    skips them and the row is stored as if they were not there. *)
Theorem read_table_skips_blank_lines
    {libm : Libm} {units : Units} (rd : bool) (n : nat)
    (es1 es2 : list entry) (r : row) :
  read_table rd (render rd es1 ++ repeat (TextLine []) n
                 ++ render rd (ERow r :: es2))
  = read_table rd (render rd (es1 ++ ERow r :: es2)).
Proof.
  rewrite read_table_render_app.
  rewrite (read_table_render rd (es1 ++ ERow r :: es2)).
  rewrite rows_of_app, fold_left_app, <- read_table_render.
  change (render rd (ERow r :: es2))
    with (render_entry rd (ERow r) :: render rd es2).
  rewrite read_loop_blanks_row.
  rewrite read_loop_render.
  - reflexivity.
  - rewrite length_app, repeat_length. simpl. unfold render.
    rewrite length_map. lia.
Qed.

(** X17. Whatever the file holds, well-formed or not, the loaded tables are
    aligned: the proton and neutron rate arrays have the same length, and
    neither the Lorentz grid nor the redshift grid is longer than them. *)
Theorem init_file_tables_aligned
    {libm : Libm} {units : Units}
    (fs : filesystem) (m m' : PhotoPionProduction) (filename : string) :
  init_file fs m filename = Normal m' ->
  List.length (tabProtonRate m') = List.length (tabNeutronRate m')
  /\ (List.length (tabLorentz m') <= List.length (tabProtonRate m'))%nat
  /\ (List.length (tabRedshifts m') <= List.length (tabProtonRate m'))%nat.
Proof.
  unfold init_file. destruct (fs filename) as [s|]; [|discriminate].
  intros H. inversion H; subst; clear H. simpl.
  apply (read_loop_aligned (doRedshiftDependent m)).
  unfold aligned; simpl. repeat split; lia.
Qed.

(** X18. The Lorentz grid of a well-formed file has one point per data row
    exactly when no row's log10(gamma) is smaller than that of the row
    before (and the first is not below the initial aOld = -1); it is then
    pow(10, a) of every row, aligned with the rate arrays. *)
Theorem read_table_grid_complete
    {libm : Libm} {units : Units} (rd : bool) (es : list entry) :
  let st := read_table rd (render rd es) in
  let rows := rows_of es in
  (List.length (ld_tabLorentz st) = List.length (ld_tabProtonRate st)
   <-> never_descends (-1)%float (map row_a rows) = true)
  /\ (never_descends (-1)%float (map row_a rows) = true ->
      ld_tabLorentz st = map (fun r => pow (double_of_int 10) (row_a r)) rows).
Proof.
  intros st rows. subst st. rewrite read_table_render. fold rows.
  destruct (fold_store_rates rd rows
              (mkLoader (-1)%float (-1)%float true [] [] [] [])) as [HP _].
  rewrite HP, fold_store_lorentz by reflexivity. simpl.
  rewrite !length_map.
  rewrite <- (length_map row_a rows) at 1.
  split; [apply ascending_run_all|].
  intros Hasc. rewrite (ascending_run_whole _ _ Hasc). apply map_map.
Qed.

(** ** Initialisation *)

(** X19. Loading the same file again changes nothing: the tables are
    cleared before they are filled, so they do not accumulate. *)
Theorem init_file_reload_idempotent
    {libm : Libm} {units : Units}
    (fs : filesystem) (m m' : PhotoPionProduction) (filename : string) :
  init_file fs m filename = Normal m' ->
  init_file fs m' filename = Normal m'.
Proof.
  unfold init_file. destruct (fs filename) as [s|]; [|discriminate].
  intros H. inversion H; subst; clear H. reflexivity.
Qed.

(** X20. [setPhotonField] stores the new field, sets the description of
    that field and loads the table file of that field (the file named in
    the case of the field, IRB sharing the file of IRB_Kneiske04), but the
    redshift-dependent flag is only ever set, never cleared: after the
    call it is true exactly when it was true before or the new field is the
    one with a redshift axis.  So once that field has been selected, the
    table of any field selected later is read in the four-column mode.
    The call returns exactly when the file of the field can be opened. *)
Theorem setPhotonField_never_clears_flag
    {libm : Libm} {units : Units} {cmn : Common}
    (fs : filesystem) (m : PhotoPionProduction) (field : PhotonField) :
  (forall (name : string) (s : stream),
     tableFile field = Some name ->
     fs (getDataPath name) = Some s ->
     exists m' : PhotoPionProduction, setPhotonField fs m field = Normal m')
  /\ forall m' : PhotoPionProduction,
  setPhotonField fs m field = Normal m' ->
  photonField m' = field
  /\ doRedshiftDependent m' = fourColumns m field
  /\ exists (name : string) (s : stream),
       tableFile field = Some name
       /\ fieldDescription field = Some (description m')
       /\ fs (getDataPath name) = Some s
       /\ tabLorentz m' = ld_tabLorentz (read_table (fourColumns m field) s)
       /\ tabRedshifts m' = ld_tabRedshifts (read_table (fourColumns m field) s)
       /\ tabProtonRate m' = ld_tabProtonRate (read_table (fourColumns m field) s)
       /\ tabNeutronRate m' = ld_tabNeutronRate (read_table (fourColumns m field) s)
       /\ havePhotons m' = havePhotons m
       /\ haveNeutrinos m' = haveNeutrinos m
       /\ haveAntiNucleons m' = haveAntiNucleons m
       /\ limit m' = limit m
       /\ forall (name' : string) (s' : stream),
            tableFile field = Some name' ->
            fs (getDataPath name') = Some s' ->
            name' = name /\ s' = s.
Proof.
  split.
  { intros name s Hname Hfs. unfold setPhotonField, init.
    destruct field; cbn [photonField]; inversion Hname; subst;
      unfold init_file; rewrite Hfs; eexists; reflexivity. }
  intros m'. unfold setPhotonField, init.
  destruct field; cbn [photonField]; try discriminate; unfold init_file;
    match goal with
    | |- context [fs (getDataPath ?n)] =>
        destruct (fs (getDataPath n)) as [s|] eqn:Hfs; [|discriminate];
        intros H; inversion H; subst; clear H;
        split; [reflexivity|]; split; [reflexivity|];
        exists n, s;
        repeat (split; [first [assumption | reflexivity]|]);
        intros name' s' Hname Hs'; inversion Hname; subst;
        split; [reflexivity|congruence]
    end.
Qed.

(** X21. A switch of photon field that fails leaves the object half
    updated.  When no table file can be opened, [setPhotonField] throws for
    every field; the object then already names the new field (and has the
    redshift-dependent flag of X20), while its four tables, its toggles and
    its limit are the old ones. *)
Theorem setPhotonField_failure_half_updated
    {libm : Libm} {units : Units} {cmn : Common}
    (fs : filesystem) (m : PhotoPionProduction) (field : PhotonField) :
  (forall f : string, fs f = None) ->
  exists (msg : string) (m' : PhotoPionProduction),
    setPhotonField fs m field = Throws msg m'
    /\ photonField m' = field
    /\ (forall n : Z, field <> PhotonField_other n ->
        doRedshiftDependent m' = fourColumns m field)
    /\ tabLorentz m' = tabLorentz m
    /\ tabRedshifts m' = tabRedshifts m
    /\ tabProtonRate m' = tabProtonRate m
    /\ tabNeutronRate m' = tabNeutronRate m
    /\ havePhotons m' = havePhotons m
    /\ haveNeutrinos m' = haveNeutrinos m
    /\ haveAntiNucleons m' = haveAntiNucleons m
    /\ limit m' = limit m.
Proof.
  intros Hfs. unfold setPhotonField, init.
  destruct field; cbn [photonField]; unfold init_file; rewrite ?Hfs;
    do 2 eexists; (split; [reflexivity|]); cbn;
    repeat split; try reflexivity;
    intros k Hk; try reflexivity; now contradiction (Hk k).
Qed.

Lemma read_loop_comments {libm : Libm} {units : Units} (rd : bool) (n : nat) :
  forall (k : nat) (st : loader),
    read_loop k rd (repeat CommentLine n) st = st.
Proof.
  induction n as [|n IH]; intros k st; destruct k; try reflexivity.
  simpl. apply IH.
Qed.

(** X22. A table file without any data row (empty, or comments only)
    loads without error and leaves all four tables empty; from then on
    [process] on any nucleus and [lossLength] on any input take front() of
    an empty vector. *)
Theorem init_file_without_rows
    {libm : Libm} {units : Units} {pid : ParticleID} {cmn : Common}
    {rt : Runtime} {kin : Kinematics}
    (fs : filesystem) (m : PhotoPionProduction) (filename : string) (n : nat) :
  fs filename = Some (repeat CommentLine n) ->
  exists m' : PhotoPionProduction,
    init_file fs m filename = Normal m'
    /\ tabLorentz m' = [] /\ tabRedshifts m' = []
    /\ tabProtonRate m' = [] /\ tabNeutronRate m' = []
    /\ (forall (fuel : nat) (c : Candidate) (w : World),
          isNucleus (getId (current c)) = true ->
          process (S fuel) m' c w = Undefined)
    /\ (forall (id : Z) (gamma z : float),
          lossLength m' id gamma z = Undefined).
Proof.
  intros Hfs. unfold init_file. rewrite Hfs.
  unfold read_table. rewrite read_loop_comments. simpl.
  eexists. split; [reflexivity|]. simpl. repeat split.
  - intros fuel c w Hnuc. unfold process. simpl. now rewrite Hnuc.
Qed.

(** X23. [lossLength] reads the photon field, the Lorentz grid and the
    proton rate array only.  In particular it ignores the
    redshift-dependent flag and the redshift grid: for a table with a
    redshift axis it still interpolates in one dimension over the stacked
    rate array and applies the pow(1 + z, 3) scaling. *)
Theorem lossLength_ignores_redshift_axis
    {libm : Libm} {pid : ParticleID} {cmn : Common}
    (m : PhotoPionProduction) (id : Z) (gamma z : float)
    (flag : bool) (tz tn : list float) :
  lossLength (setTables (setDoRedshiftDependent m flag)
                        (tabLorentz m) tz (tabProtonRate m) tn) id gamma z
  = lossLength m id gamma z
  /\ (outOfRange m (gamma * (1 + z))%float = Some false ->
      0 < chargeNumber id -> massNumber id - chargeNumber id <= 0 ->
      lossLength (setDoRedshiftDependent m true) id gamma z
      = Normal (1 / ((0 + interpolate (gamma * (1 + z)) (tabLorentz m)
                                      (tabProtonRate m)
                          * nucleiModification (massNumber id) (chargeNumber id))
                     * relativeEnergyLoss (massNumber id)
                     * (pow (1 + z) 3 * photonFieldScaling (photonField m) z)))%float).
Proof.
  split; [reflexivity|].
  intros Hrange HZ HN. unfold lossLength.
  change (outOfRange (setDoRedshiftDependent m true) (gamma * (1 + z)))
    with (outOfRange m (gamma * (1 + z))).
  rewrite Hrange.
  destruct (Z.gtb_spec (chargeNumber id) 0); [|lia].
  destruct (Z.gtb_spec (massNumber id - chargeNumber id) 0); [lia|].
  reflexivity.
Qed.

(** ** Worked examples of the further properties *)

Section Examples.
#[local] Existing Instance Sample.libm.
#[local] Existing Instance Sample.units.
#[local] Existing Instance Sample.pid.
#[local] Existing Instance Sample.cmn.
#[local] Existing Instance Sample.rt.
#[local] Existing Instance Sample.kin.

(** The proton interacts after 1e-6 mean free paths and is deferred in the
    second iteration: the cap comes down from 1e30 to 3.4e22. *)
Lemma process_never_raises_next_step_witness :
  let c' := mkCandidate (mkParticleState 1000010010 80.108828500000001%float)
                        0%float 1e22%float 3.3761314099531218e+22%float [] in
  getRedshift c' = getRedshift Runs.proton
  /\ getCurrentStep c' = getCurrentStep Runs.proton
  /\ (getNextStep c' = getNextStep Runs.proton
      \/ PrimFloat.ltb (getNextStep c') (getNextStep Runs.proton) = true)
  /\ exists l : list (Z * float), secondaries c' = secondaries Runs.proton ++ l.
Proof.
  intros c'.
  apply (process_never_raises_next_step Sample.cmb 5 Runs.proton c'
           (Runs.tape [0.999999; 0.25; 0.5; 0.5]%float [[(13, 5e11%float)]])
           (Runs.tape [0.5; 0.5]%float [])).
  left. vm_compute. reflexivity.
Defined.

(** Carbon-12 and an event whose second particle has the unknown code 99:
    the photon before it is recorded, the proton after it is lost. *)
Lemma performInteraction_unexpected_particle_witness :
  performInteraction Sample.cmb Runs.carbon 1
    (Runs.tape [] [[(1, 1e8%float); (99, 1%float); (13, 8e11%float)]])
  = Throws "PhotoPionProduction: unexpected particle 99"
      (mkCandidate (mkParticleState 1000060120 1800%float)
                   0%float 1e22%float 1e30%float [(22, (1e8 * GeV)%float)],
       Runs.tape [] []).
Proof.
  refine (eq_trans
            (performInteraction_unexpected_particle Sample.cmb Runs.carbon 1 _
               (Runs.tape [] []) [(1, 1e8%float)] [(13, 8e11%float)]
               99 1%float _ _ _) _).
  - vm_compute; reflexivity.
  - repeat constructor.
  - reflexivity.
  - vm_compute; reflexivity.
Defined.

(** Carbon-12 and an event with a proton, an antiproton and a neutron:
    boron-11 once, and both nucleons among the three secondaries. *)
Lemma performInteraction_several_nucleons_witness :
  performInteraction Sample.cmb Runs.carbon 1
    (Runs.tape [] [[(13, 8e11%float); (-13, 1e11%float); (14, 2e11%float)]])
  = Normal
      (mkCandidate (mkParticleState 1000050110 1650%float)
                   0%float 1e22%float 1e30%float
                   [(1000010010, (8e11 * GeV)%float);
                    (-1000010010, (1e11 * GeV)%float);
                    (1000000010, (2e11 * GeV)%float)],
       Runs.tape [] []).
Proof.
  refine (eq_trans
            (performInteraction_several_nucleons Sample.cmb Runs.carbon 1 _
               (Runs.tape [] []) _ _ _ _ _) _).
  - vm_compute; reflexivity.
  - vm_compute; reflexivity.
  - repeat constructor.
  - apply Exists_cons_hd. reflexivity.
  - vm_compute; reflexivity.
Defined.

(** Carbon-12, a photon, a proton and a neutrino: with the toggles off only
    the proton is appended, and boron-11 is the primary either way. *)
Lemma toggles_only_filter_secondaries_witness :
  exists st : ParticleState,
    performInteraction Sample.cmb Runs.carbon 1
      (Runs.tape [] [[(1, 1e8%float); (13, 8e11%float); (17, 2e8%float)]])
    = Normal (mkCandidate st 0%float 1e22%float 1e30%float
                [(22, (1e8 * GeV)%float); (1000010010, (8e11 * GeV)%float);
                 (14, (2e8 * GeV)%float)],
              Runs.tape [] [])
    /\ performInteraction (recordNothing Sample.cmb) Runs.carbon 1
         (Runs.tape [] [[(1, 1e8%float); (13, 8e11%float); (17, 2e8%float)]])
       = Normal (mkCandidate st 0%float 1e22%float 1e30%float
                   [(1000010010, (8e11 * GeV)%float)],
                 Runs.tape [] []).
Proof.
  destruct (toggles_only_filter_secondaries Sample.cmb Runs.carbon 1
              (Runs.tape [] [[(1, 1e8%float); (13, 8e11%float); (17, 2e8%float)]])
              (Runs.tape [] [])
              [(1, 1e8%float); (13, 8e11%float); (17, 2e8%float)]
              ltac:(vm_compute; reflexivity) ltac:(repeat constructor))
    as [st [Hon Hoff]].
  exists st. split.
  - refine (eq_trans Hon _). vm_compute; reflexivity.
  - refine (eq_trans Hoff _). vm_compute; reflexivity.
Defined.

(** A proton and an antiproton on the same event (photon, proton,
    positron): antiproton and electron mirror proton and positron, the
    photon is the same. *)
Lemma performInteraction_charge_symmetry_witness :
  exists c1 c2 : Candidate,
    performInteraction Sample.cmb Runs.proton 1
      (Runs.tape [] [[(1, 1e8%float); (13, 5e11%float); (2, 1e7%float)]])
    = Normal (c1, Runs.tape [] [])
    /\ performInteraction Sample.cmb (setId Runs.proton (-1000010010)) 1
         (Runs.tape [] [[(1, 1e8%float); (13, 5e11%float); (2, 1e7%float)]])
       = Normal (c2, Runs.tape [] [])
    /\ getId (current c2) = - getId (current c1)
    /\ getEnergy (current c2) = getEnergy (current c1)
    /\ secondaries c1 = [(22, (1e8 * GeV)%float); (-11, (1e7 * GeV)%float)]
    /\ secondaries c2 = [(22, (1e8 * GeV)%float); (11, (1e7 * GeV)%float)].
Proof.
  destruct (performInteraction_charge_symmetry Sample.cmb Runs.proton 1
              (Runs.tape [] [[(1, 1e8%float); (13, 5e11%float); (2, 1e7%float)]])
              (Runs.tape [] [])
              [(1, 1e8%float); (13, 5e11%float); (2, 1e7%float)]
              ltac:(vm_compute; reflexivity) ltac:(vm_compute; reflexivity)
              ltac:(vm_compute; reflexivity) ltac:(vm_compute; reflexivity)
              ltac:(repeat constructor))
    as (c1 & c2 & H1 & H2 & Hid & HE & Hs1 & Hs2).
  exists c1, c2. repeat split; assumption.
Defined.

(** A bare neutron in the field without photons, with an unbounded step. *)
Lemma process_reads_unassigned_channel_witness :
  process_loop 1 Sample.dark infinity Runs.neutron_unbounded
    (Runs.tape [0.5]%float [])
  = Undefined.
Proof.
  apply (process_reads_unassigned_channel Sample.dark 0 infinity
           Runs.neutron_unbounded (Runs.tape [0.5]%float []));
    try (intros _); vm_compute; reflexivity.
Defined.

(** The run of the first example, iteration by iteration. *)
Lemma process_interacts_then_defers_witness :
  process_loop 2 Sample.cmb 1e22%float Runs.proton
    (Runs.tape [0.999999; 0.25; 0.5; 0.5]%float [[(13, 5e11%float)]])
  = Normal
      (mkCandidate (mkParticleState 1000010010 80.108828500000001%float)
                   0%float 1e22%float 3.3761314099531218e+22%float [],
       Runs.tape [0.5; 0.5]%float []).
Proof.
  refine (eq_trans
            (process_interacts_then_defers Sample.cmb 0 1e22%float
               Runs.proton Runs.proton_after
               (Runs.tape [0.999999; 0.25; 0.5; 0.5]%float [[(13, 5e11%float)]])
               (Runs.tape [0.25; 0.5; 0.5]%float []) 1
               _ _ _ _ _ _ _ _ _) _);
    vm_compute; reflexivity.
Defined.

(** The proton with a step that is exactly the sampled distance. *)
Lemma process_interaction_uses_up_step_witness :
  let w := Runs.tape [0.5; 0.25]%float [[(13, 5e11%float)]] in
  process_loop 1 Sample.cmb (minDistance Sample.cmb Runs.proton w) Runs.proton w
  = Normal (Runs.proton_after, Runs.tape [0.25]%float [])
  /\ getNextStep Runs.proton_after = getNextStep Runs.proton.
Proof.
  intros w.
  apply (process_interaction_uses_up_step Sample.cmb 0
           (minDistance Sample.cmb Runs.proton w) Runs.proton Runs.proton_after
           w (Runs.tape [0.25]%float []) 1);
    vm_compute; reflexivity.
Defined.

(** The proton and an event of the unknown code 99. *)
Lemma process_propagates_exception_witness :
  process_loop 1 Sample.cmb 1e22%float Runs.proton
    (Runs.tape [0.999999]%float [[(99, 1%float)]])
  = Throws "PhotoPionProduction: unexpected particle 99"
      (Runs.proton, Runs.tape [] [])
  /\ getNextStep Runs.proton = getNextStep Runs.proton.
Proof.
  apply (process_propagates_exception Sample.cmb 0 1e22%float
           Runs.proton Runs.proton
           (Runs.tape [0.999999]%float [[(99, 1%float)]])
           (Runs.tape [] []) 1);
    vm_compute; reflexivity.
Defined.

Lemma range_is_closed_witness :
  outOfRange Sample.cmb 1e10%float = Some false
  /\ outOfRange Sample.cmb 1e12%float = Some false
  /\ outOfRange Sample.cmb nan = Some false.
Proof.
  destruct (range_is_closed Sample.cmb 1e10%float 1e12%float
              eq_refl eq_refl eq_refl) as (H1 & H2 & H3 & _).
  repeat split; assumption.
Defined.

(** The broken file: one row is read, and the arrays are aligned. *)
Lemma init_file_tables_aligned_witness :
  let m' := setTables Sample.cmb [1e8%float] []
              [(1 / Mpc)%float] [(2 / Mpc)%float] in
  List.length (tabProtonRate m') = List.length (tabNeutronRate m')
  /\ (List.length (tabLorentz m') <= List.length (tabProtonRate m'))%nat
  /\ (List.length (tabRedshifts m') <= List.length (tabProtonRate m'))%nat.
Proof.
  intros m'.
  apply (init_file_tables_aligned (fun _ => Some Runs.broken) Sample.cmb m'
           "ppp_CMB.txt").
  vm_compute. reflexivity.
Defined.

Lemma init_file_reload_idempotent_witness :
  let m' := setTables Sample.cmb [1e8%float] []
              [(1 / Mpc)%float] [(2 / Mpc)%float] in
  init_file (fun _ => Some Runs.broken) m' "ppp_CMB.txt" = Normal m'.
Proof.
  intros m'.
  apply (init_file_reload_idempotent (fun _ => Some Runs.broken) Sample.cmb m'
           "ppp_CMB.txt").
  vm_compute. reflexivity.
Defined.

(** After the field with a redshift axis, selecting the CMB opens
    ppp_CMB.txt (the only file there is on this file system); its
    three-column table of four rows is read four numbers at a time: two
    entries are left. *)
Lemma setPhotonField_never_clears_flag_witness :
  let fs := fun f : string =>
              if String.eqb f "share/crpropa/ppp_CMB.txt"
              then Some Runs.three_columns else None in
  let m' := mkPPP "PhotoPionProduction: CMB" CMB true true true true 0.1%float
              [1e1; 1e1]%float [8; 10]%float
              [(2 / Mpc); (2 / Mpc)]%float [(9 / Mpc); (11 / Mpc)]%float in
  photonField m' = CMB
  /\ doRedshiftDependent m' = true
  /\ tableFile CMB = Some "ppp_CMB.txt"%string
  /\ fs (getDataPath "ppp_CMB.txt") = Some Runs.three_columns
  /\ tabProtonRate m' = ld_tabProtonRate (read_table true Runs.three_columns)
  /\ setPhotonField fs Runs.cmb_flagged IRB_Kneiske10
     = Throws "PhotoPionProduction: could not open file share/crpropa/ppp_IRB_Kneiske10.txt"
         (mkPPP "PhotoPionProduction: IRB Kneiske '10 (lower limit)"
                IRB_Kneiske10 true true true true 0.1%float
                [1e10; 1e11; 1e12]%float [] [1e-24; 2e-24; 4e-24]%float
                [1e-24; 3e-24; 5e-24]%float).
Proof.
  intros fs m'.
  assert (Hset : setPhotonField fs Runs.cmb_flagged CMB = Normal m')
    by (vm_compute; reflexivity).
  destruct (proj2 (setPhotonField_never_clears_flag fs Runs.cmb_flagged CMB)
              m' Hset)
    as (Hf & Hd & name & s & Hname & _ & Hfs & _ & _ & HP & _).
  inversion Hname; subst name.
  assert (Hs : s = Runs.three_columns)
    by (vm_compute in Hfs; inversion Hfs; reflexivity).
  subst s.
  split; [exact Hf|]. split; [exact Hd|]. split; [reflexivity|].
  split; [exact Hfs|]. split; [exact HP|].
  vm_compute; reflexivity.
Defined.

Lemma setPhotonField_failure_half_updated_witness :
  exists (msg : string) (m' : PhotoPionProduction),
    setPhotonField (fun _ => None) Sample.cmb IRB_withRedshift_Kneiske04
    = Throws msg m'
    /\ photonField m' = IRB_withRedshift_Kneiske04
    /\ doRedshiftDependent m' = true
    /\ tabLorentz m' = [1e10; 1e11; 1e12]%float.
Proof.
  destruct (setPhotonField_failure_half_updated (fun _ => None) Sample.cmb
              IRB_withRedshift_Kneiske04 (fun _ => eq_refl))
    as (msg & m' & H & Hf & Hd & Hl & _).
  exists msg, m'. repeat split; try assumption.
  apply (Hd 0). discriminate.
Defined.

Lemma init_file_without_rows_witness :
  exists m' : PhotoPionProduction,
    init_file (fun _ => Some (repeat CommentLine 3)) Sample.cmb "ppp_CMB.txt"
    = Normal m'
    /\ tabLorentz m' = []
    /\ process 1 m' Runs.carbon (Runs.tape [0.5; 0.25]%float []) = Undefined
    /\ lossLength m' 1000060120 1e12%float 0%float = Undefined.
Proof.
  destruct (init_file_without_rows (fun _ => Some (repeat CommentLine 3))
              Sample.cmb "ppp_CMB.txt" 3 eq_refl)
    as (m' & H & Hl & _ & _ & _ & Hp & Hloss).
  exists m'. repeat split; try assumption.
  - apply Hp. reflexivity.
  - apply Hloss.
Defined.

End Examples.

Section EvolvingExamples.
#[local] Existing Instance Sample.libm.
#[local] Existing Instance Sample.units.
#[local] Existing Instance Sample.pid.
#[local] Existing Instance Evolving.cmn.
#[local] Existing Instance Sample.rt.
#[local] Existing Instance Sample.kin.

(** Carbon-12 at redshift 1 on the table with the blocks z = 0 and z = 2
    (three times the rates): the bilinear lookup at (1, 9.978e11) gives
    twice the rates of the first block, 8.0e-24 and 10.0e-24, and totalRate
    is 0.85 * 6 times their sum with no factor 4 * 1.5; the sampled
    distance is -log(0.5) / (0.85 * 6 * 8.0e-24) and the cap 0.1 /
    totalRate.  With the flag cleared the same object takes the scaled
    one-dimensional lookup and has three times this totalRate. *)
Lemma redshift_dependent_rate_witness :
  let w := Evolving.tape [0.5; 0.25]%float [] in
  totalRate (fst (sample_channels Evolving.irbz Evolving.carbon w))
  = 9.1700485598350294e-23%float
  /\ randDistance (fst (sample_channels Evolving.irbz Evolving.carbon w))
     = 1.7009645414283901e+22%float
  /\ process_loop 1 Evolving.irbz 1e21%float Evolving.carbon w
     = Normal
         (mkCandidate (mkParticleState 1000060120 900%float)
                      1%float 1e22%float 1.0905067661037449e+21%float [],
          Evolving.tape [] [])
  /\ totalRate (fst (sample_channels (setDoRedshiftDependent Evolving.irbz false)
                                     Evolving.carbon w))
     = 2.7510145679505089e-22%float.
Proof.
  intros w.
  destruct (redshift_dependent_rate Evolving.irbz Evolving.carbon w eq_refl)
    as (Ht & Hd & Hp).
  split; [refine (eq_trans Ht _); vm_compute; reflexivity|].
  split; [refine (eq_trans Hd _); vm_compute; reflexivity|].
  split.
  - refine (eq_trans (Hp 0%nat 1e21%float _ _ _) _); vm_compute; reflexivity.
  - vm_compute; reflexivity.
Defined.

End EvolvingExamples.
